(** * ng2-semantic-ui: popup lifecycle controller and datepicker directive

    A shallow embedding of [src/datepicker/directives/datepicker.directive.ts]
    (the [SuiDatepickerDirective] class and the [SuiPopupBaseDirective] class
    that follows it in the same source file), with the properties of the
    specification stated and proved over it. *)

From Stdlib Require Import String.
From stdpp Require Import prelude gmap.

Set Default Proof Using "Type".

(** ** The popup lifecycle controller ([SuiPopupBaseDirective]) *)
Module Popup.

(** [PopupTrigger] of [popup-config]: the five trigger modes that the
    handlers compare [_popupConfig.trigger] against with [===]. *)
Inductive PopupTrigger := Hover | Click | OutsideClick | Focus | Manual.

#[global] Instance PopupTrigger_eq_dec : EqDecision PopupTrigger.
Proof. solve_decision. Defined.

(** DOM elements and template references are identities. *)
Definition node := nat.
Definition TemplateRef := nat.

(** The fields of [PopupConfig] that the base directive reads. *)
Record PopupConfig := {
  trigger : PopupTrigger;
  delay : nat;
  template : option TemplateRef
}.

(** The three methods of [IPopup]. *)
Inductive Method := MOpen | MClose | MToggle.

#[global] Instance Method_eq_dec : EqDecision Method.
Proof. solve_decision. Defined.

(** The closures handed to [onClose.subscribe]. The base directive has one:
    the arrow function of [open] that destroys the component reference. *)
Inductive Subscriber := DestroyOnClose.

(** What the controller does to its collaborators, newest first. *)
Inductive Effect :=
| Called (m : Method)
| Created (id : nat)
| Destroyed (id : nat)
| PopupOpen (id : nat)
| PopupClose (id : nat).

#[global] Instance Effect_eq_dec : EqDecision Effect.
Proof. solve_decision. Defined.

(** Modelled from the spec: the [SuiPopup] component class ([./popup]) is not
    part of the source file. Its contract (section 6 of the specification) is
    [open()], [close()] and an [isOpen] boolean; a transition is started and
    its completion is signalled later, so [open()] and [close()] act on the
    popup's own state only. *)
Class PopupImpl (P : Type) := {
  popup_new : P;
  popup_open : P -> P;
  popup_close : P -> P;
  popup_isOpen : P -> bool
}.

Section Controller.
Context {P : Type} `{PopupImpl P}.

(** The members of a [SuiPopup] instance that the directive writes to, and
    the component's own state. *)
Record SuiPopup := {
  config : option PopupConfig;
  anchor : option node;
  templateSibling : list TemplateRef;
  onClose : list Subscriber;
  transition : P
}.

(** [ComponentRef<SuiPopup>]: an identity, the host element and the instance. *)
Record ComponentRef := {
  ref_id : nat;
  location : node;
  instance : SuiPopup
}.

(** The directive's fields, followed by the part of the platform it talks
    to: the clock and the pending [setTimeout] timers (handle, due time), the
    views of the view container, the document (child to parent) and its
    body, and the record of effects. *)
Record World := {
  _element : node;
  _popupConfig : PopupConfig;
  _componentRef : option ComponentRef;
  _openingTimeout : option nat;
  clock : nat;
  timers : list (nat * nat);
  next_timer : nat;
  views : list nat;
  next_ref : nat;
  next_node : node;
  document : gmap node node;
  body : node;
  log : list Effect
}.

Definition set_componentRef (r : option ComponentRef) (w : World) : World :=
  {| _element := _element w; _popupConfig := _popupConfig w;
     _componentRef := r; _openingTimeout := _openingTimeout w;
     clock := clock w; timers := timers w; next_timer := next_timer w;
     views := views w; next_ref := next_ref w; next_node := next_node w;
     document := document w; body := body w; log := log w |}.

Definition set_openingTimeout (h : option nat) (w : World) : World :=
  {| _element := _element w; _popupConfig := _popupConfig w;
     _componentRef := _componentRef w; _openingTimeout := h;
     clock := clock w; timers := timers w; next_timer := next_timer w;
     views := views w; next_ref := next_ref w; next_node := next_node w;
     document := document w; body := body w; log := log w |}.

Definition set_clock (c : nat) (w : World) : World :=
  {| _element := _element w; _popupConfig := _popupConfig w;
     _componentRef := _componentRef w; _openingTimeout := _openingTimeout w;
     clock := c; timers := timers w; next_timer := next_timer w;
     views := views w; next_ref := next_ref w; next_node := next_node w;
     document := document w; body := body w; log := log w |}.

Definition set_timers (ts : list (nat * nat)) (n : nat) (w : World) : World :=
  {| _element := _element w; _popupConfig := _popupConfig w;
     _componentRef := _componentRef w; _openingTimeout := _openingTimeout w;
     clock := clock w; timers := ts; next_timer := n;
     views := views w; next_ref := next_ref w; next_node := next_node w;
     document := document w; body := body w; log := log w |}.

Definition set_views (vs : list nat) (n : nat) (w : World) : World :=
  {| _element := _element w; _popupConfig := _popupConfig w;
     _componentRef := _componentRef w; _openingTimeout := _openingTimeout w;
     clock := clock w; timers := timers w; next_timer := next_timer w;
     views := vs; next_ref := n; next_node := next_node w;
     document := document w; body := body w; log := log w |}.

Definition set_document (d : gmap node node) (n : node) (w : World) : World :=
  {| _element := _element w; _popupConfig := _popupConfig w;
     _componentRef := _componentRef w; _openingTimeout := _openingTimeout w;
     clock := clock w; timers := timers w; next_timer := next_timer w;
     views := views w; next_ref := next_ref w; next_node := n;
     document := d; body := body w; log := log w |}.

Definition set_log (l : list Effect) (w : World) : World :=
  {| _element := _element w; _popupConfig := _popupConfig w;
     _componentRef := _componentRef w; _openingTimeout := _openingTimeout w;
     clock := clock w; timers := timers w; next_timer := next_timer w;
     views := views w; next_ref := next_ref w; next_node := next_node w;
     document := document w; body := body w; log := l |}.

(** *** Computations: state passing with exceptions *)

Inductive Error := TypeError.

Inductive Res (A : Type) :=
| Ok (a : A) (w : World)
| Throw (e : Error).
Arguments Ok {A} a w.
Arguments Throw {A} e.

Definition M (A : Type) := World -> Res A.

Definition ret {A} (a : A) : M A := fun w => Ok a w.

Definition bind {A B} (m : M A) (k : A -> M B) : M B :=
  fun w => match m w with Ok a w' => k a w' | Throw e => Throw e end.

Definition throw {A} (e : Error) : M A := fun _ => Throw e.

Definition gets {A} (f : World -> A) : M A := fun w => Ok (f w) w.

Definition modify (f : World -> World) : M unit := fun w => Ok tt (f w).

Notation "x <- m ;; k" := (bind m (fun x => k))
  (at level 100, m at next level, right associativity).
Notation "m ;;; k" := (bind m (fun _ => k))
  (at level 100, right associativity).

Definition note (e : Effect) : M unit :=
  modify (fun w => set_log (e :: log w) w).

(** *** The platform *)

(** [clearTimeout(handle)]: drops the pending timer with that handle; an
    undefined or stale handle drops nothing. *)
Definition clear (h : option nat) (ts : list (nat * nat)) : list (nat * nat) :=
  match h with
  | Some id => filter (fun t => t.1 <> id) ts
  | None => ts
  end.

Definition clearTimeout (h : option nat) : M unit :=
  modify (fun w => set_timers (clear h (timers w)) (next_timer w) w).

(** [window.setTimeout(callback, ms)]: the only callback the directive ever
    schedules is the arrow function of [open], so a pending timer is its
    handle and its due time. *)
Definition setTimeout (ms : nat) : M nat :=
  fun w => Ok (next_timer w)
    (set_timers ((next_timer w, clock w + ms) :: timers w) (S (next_timer w)) w).

(** [_viewContainerRef.createComponent(factory)]: a new component whose host
    element is inserted next to the directive's element. *)
Definition new_popup : SuiPopup :=
  {| config := None; anchor := None; templateSibling := [];
     onClose := []; transition := popup_new |}.

Definition place_beside (el new : node) (d : gmap node node) : gmap node node :=
  match d !! el with
  | Some p => <[new := p]> d
  | None => d
  end.

Definition createComponent : M ComponentRef :=
  fun w =>
    let r := {| ref_id := next_ref w; location := next_node w;
                instance := new_popup |} in
    Ok r (set_log (Created (next_ref w) :: log w)
         (set_document (place_beside (_element w) (next_node w) (document w))
                       (S (next_node w))
         (set_views (next_ref w :: views w) (S (next_ref w)) w))).

(** [componentRef.destroy()]: the view leaves the container and the host
    element leaves the document. *)
Definition destroy (r : ComponentRef) : M unit :=
  fun w =>
    Ok tt (set_log (Destroyed (ref_id r) :: log w)
          (set_document (delete (location r) (document w)) (next_node w)
          (set_views (filter (fun v => v <> ref_id r) (views w)) (next_ref w) w))).

(** [parent.appendChild(child)] moves the child under the parent. *)
Definition appendChild (parent child : node) : M unit :=
  modify (fun w => set_document (<[child := parent]> (document w)) (next_node w) w).

(** [a.contains(t)]: [t] is [a] or has [a] among its ancestors. *)
Fixpoint climbs (d : gmap node node) (fuel : nat) (a t : node) : bool :=
  if decide (a = t) then true
  else match fuel with
       | 0 => false
       | S k => match d !! t with
                | Some p => climbs d k a p
                | None => false
                end
       end.

Definition contains (d : gmap node node) (a t : node) : bool :=
  climbs d (size d) a t.

(** *** The directive *)

(** The private getter [_popup]: [this._componentRef!.instance]. The
    assertion is unchecked, so reading it without a component throws. *)
Definition _popup : M SuiPopup :=
  fun w => match _componentRef w with
           | Some r => Ok (instance r) w
           | None => Throw TypeError
           end.

(** An assignment to a member of [this._popup]. *)
Definition update_popup (f : SuiPopup -> SuiPopup) : M unit :=
  p <- _popup ;;
  modify (fun w =>
    set_componentRef
      (option_map (fun r => {| ref_id := ref_id r; location := location r;
                               instance := f p |}) (_componentRef w)) w).

Definition createEmbeddedView (t : TemplateRef) (p : SuiPopup) : SuiPopup :=
  {| config := config p; anchor := anchor p;
     templateSibling := templateSibling p ++ [t];
     onClose := onClose p; transition := transition p |}.

Definition assign_config (c : PopupConfig) (p : SuiPopup) : SuiPopup :=
  {| config := Some c; anchor := anchor p;
     templateSibling := templateSibling p;
     onClose := onClose p; transition := transition p |}.

Definition assign_anchor (el : node) (p : SuiPopup) : SuiPopup :=
  {| config := config p; anchor := Some el;
     templateSibling := templateSibling p;
     onClose := onClose p; transition := transition p |}.

Definition subscribe (s : Subscriber) (p : SuiPopup) : SuiPopup :=
  {| config := config p; anchor := anchor p;
     templateSibling := templateSibling p;
     onClose := onClose p ++ [s]; transition := transition p |}.

Definition run_transition (f : P -> P) (p : SuiPopup) : SuiPopup :=
  {| config := config p; anchor := anchor p;
     templateSibling := templateSibling p;
     onClose := onClose p; transition := f (transition p) |}.

(** [this._popup.open()] and [this._popup.close()]. *)
Definition popup_call (f : P -> P) (e : nat -> Effect) : M unit :=
  update_popup (run_transition f) ;;;
  r <- gets _componentRef ;;
  match r with
  | Some c => note (e (ref_id c))
  | None => throw TypeError
  end.

(** The arrow function that [open] hands to [setTimeout]. *)
Definition open_callback : M unit :=
  r <- gets _componentRef ;;
  match r with
  | None =>
      c <- createComponent ;;
      modify (set_componentRef (Some c)) ;;;
      cfg <- gets _popupConfig ;;
      match template cfg with
      | Some t => update_popup (createEmbeddedView t)
      | None => ret tt
      end ;;;
      update_popup (assign_config cfg) ;;;
      el <- gets _element ;;
      update_popup (assign_anchor el) ;;;
      b <- gets body ;;
      appendChild b (location c) ;;;
      update_popup (subscribe DestroyOnClose)
  | Some _ => ret tt
  end ;;;
  popup_call popup_open PopupOpen.

Definition open : M unit :=
  note (Called MOpen) ;;;
  h <- gets _openingTimeout ;;
  clearTimeout h ;;;
  cfg <- gets _popupConfig ;;
  id <- setTimeout (delay cfg) ;;
  modify (set_openingTimeout (Some id)).

Definition close : M unit :=
  note (Called MClose) ;;;
  h <- gets _openingTimeout ;;
  clearTimeout h ;;;
  r <- gets _componentRef ;;
  match r with
  | Some _ => popup_call popup_close PopupClose
  | None => ret tt
  end.

(** [!this._componentRef || (this._componentRef && !this._popup.isOpen)],
    with the short-circuit evaluation of [||] and [&&]. *)
Definition wants_open : M bool :=
  r <- gets _componentRef ;;
  match r with
  | None => ret true
  | Some _ => p <- _popup ;; ret (negb (popup_isOpen (transition p)))
  end.

Definition toggle : M unit :=
  note (Called MToggle) ;;;
  b <- wants_open ;;
  if b then open else close.

(** The subscriber of [onClose] registered by [open_callback]. *)
Definition run_subscriber (s : Subscriber) : M unit :=
  match s with
  | DestroyOnClose =>
      r <- gets _componentRef ;;
      match r with
      | Some c => destroy c ;;; modify (set_componentRef None)
      | None => ret tt
      end
  end.

Fixpoint run_subscribers (l : list Subscriber) : M unit :=
  match l with
  | [] => ret tt
  | s :: l' => run_subscriber s ;;; run_subscribers l'
  end.

(** The host listeners. *)
Definition onMouseEnter : M unit :=
  cfg <- gets _popupConfig ;;
  if decide (trigger cfg = Hover) then open else ret tt.

Definition onMouseLeave : M unit :=
  cfg <- gets _popupConfig ;;
  if decide (trigger cfg = Hover) then close else ret tt.

Definition onClick : M unit :=
  cfg <- gets _popupConfig ;;
  if bool_decide (trigger cfg = Click) || bool_decide (trigger cfg = OutsideClick)
  then toggle else ret tt.

Definition onDocumentClick (target : node) : M unit :=
  r <- gets _componentRef ;;
  cfg <- gets _popupConfig ;;
  match r with
  | Some _ =>
      if decide (trigger cfg = OutsideClick) then
        el <- gets _element ;;
        d <- gets document ;;
        if negb (contains d el target) then close else ret tt
      else ret tt
  | None => ret tt
  end.

Definition onFocus : M unit :=
  cfg <- gets _popupConfig ;;
  if decide (trigger cfg = Focus) then open else ret tt.

Definition onFocusOut : M unit :=
  cfg <- gets _popupConfig ;;
  if decide (trigger cfg = Focus) then close else ret tt.

(** *** Events *)

(** The raw interaction events of the element the directive sits on. *)
Inductive RawEvent := MouseEnter | MouseLeave | AnchorClick | FocusIn | FocusOut.

(** Everything that can happen to a controller: a call of one of its public
    methods, a raw event, a click somewhere in the document, time passing,
    a pending timer running its callback, and the popup instance emitting
    [onClose]. *)
Inductive Event :=
| Call (m : Method)
| Raw (e : RawEvent)
| DocumentClick (target : node)
| Elapse (dt : nat)
| Timer (handle : nat)
| CloseCompleted.

Definition invoke (m : Method) : M unit :=
  match m with
  | MOpen => open
  | MClose => close
  | MToggle => toggle
  end.

Definition handle (e : RawEvent) : M unit :=
  match e with
  | MouseEnter => onMouseEnter
  | MouseLeave => onMouseLeave
  | AnchorClick => onClick
  | FocusIn => onFocus
  | FocusOut => onFocusOut
  end.

(** A timer runs once, no earlier than its due time. *)
Definition due (handle : nat) (w : World) : bool :=
  bool_decide (Exists (fun t => t.1 = handle /\ t.2 <= clock w) (timers w)).

Definition fire (handle : nat) : M unit :=
  w <- gets id ;;
  if due handle w then
    modify (fun w => set_timers (clear (Some handle) (timers w)) (next_timer w) w) ;;;
    open_callback
  else ret tt.

(** [onClose.emit()] of the popup instance the directive holds. *)
Definition emit_onClose : M unit :=
  r <- gets _componentRef ;;
  match r with
  | Some c => run_subscribers (onClose (instance c))
  | None => ret tt
  end.

Definition step (e : Event) : M unit :=
  match e with
  | Call m => invoke m
  | Raw e => handle e
  | DocumentClick t => onDocumentClick t
  | Elapse dt => modify (fun w => set_clock (clock w + dt) w)
  | Timer h => fire h
  | CloseCompleted => emit_onClose
  end.

Fixpoint run (es : list Event) : M unit :=
  match es with
  | [] => ret tt
  | e :: es' => step e ;;; run es'
  end.

(** A freshly constructed directive: no component, no timer. *)
Definition init (el : node) (cfg : PopupConfig) (bd : node)
    (doc : gmap node node) (fresh : node) : World :=
  {| _element := el; _popupConfig := cfg;
     _componentRef := None; _openingTimeout := None;
     clock := 0; timers := []; next_timer := 1;
     views := []; next_ref := 0; next_node := fresh;
     document := doc; body := bd; log := [] |}.

Inductive reachable : World -> Prop :=
| reachable_init el cfg bd doc fresh : reachable (init el cfg bd doc fresh)
| reachable_step w e w' :
    reachable w -> step e w = Ok tt w' -> reachable w'.

(** The effects recorded between an earlier world and a later one. *)
Definition since (w w' : World) : list Effect :=
  take (length (log w') - length (log w)) (log w').

Definition invoked (m : Method) (w w' : World) : Prop :=
  Called m ∈ since w w'.

Definition creations (l : list Effect) : list nat :=
  omap (fun e => match e with Created i => Some i | _ => None end) l.

(** *** Worlds and predicates that the statements use *)

Definition with_instance (f : SuiPopup -> SuiPopup) (c : ComponentRef)
    : ComponentRef :=
  {| ref_id := ref_id c; location := location c; instance := f (instance c) |}.

Definition logged (e : Effect) (w : World) : World :=
  set_log (e :: log w) w.

Definition cancelled (w : World) : World :=
  set_timers (clear (_openingTimeout w) (timers w)) (next_timer w) w.

(** The popup instance as [open_callback] leaves it after creating it. *)
Definition created_popup (w : World) : SuiPopup :=
  {| config := Some (_popupConfig w);
     anchor := Some (_element w);
     templateSibling := match template (_popupConfig w) with
                        | Some t => [t]
                        | None => []
                        end;
     onClose := [DestroyOnClose];
     transition := popup_open popup_new |}.

Definition created_ref (w : World) : ComponentRef :=
  {| ref_id := next_ref w; location := next_node w;
     instance := created_popup w |}.

Definition destroyed (c : ComponentRef) (w : World) : World :=
  set_log (Destroyed (ref_id c) :: log w)
    (set_document (delete (location c) (document w)) (next_node w)
    (set_views (filter (fun v => v <> ref_id c) (views w)) (next_ref w) w)).

Definition callback_runs (l : list Effect) : list nat :=
  omap (fun e => match e with PopupOpen i => Some i | _ => None end) l.

Record inv (w : World) : Prop := {
  inv_timers : Forall (fun t => _openingTimeout w = Some t.1) (timers w);
  inv_views :
    views w = match _componentRef w with
              | Some c => [ref_id c]
              | None => []
              end;
  inv_created : Forall (fun i => i < next_ref w) (creations (log w));
  inv_ref : forall c, _componentRef w = Some c ->
            ref_id c < next_ref w /\ onClose (instance c) = [DestroyOnClose]
}.

(** The events that can reach [open()] under a given configuration. *)
Definition requests_open (cfg : PopupConfig) (e : Event) : bool :=
  match e with
  | Call MOpen | Call MToggle => true
  | Raw MouseEnter => bool_decide (trigger cfg = Hover)
  | Raw AnchorClick =>
      bool_decide (trigger cfg = Click) || bool_decide (trigger cfg = OutsideClick)
  | Raw FocusIn => bool_decide (trigger cfg = Focus)
  | _ => false
  end.

(** Between two worlds nothing was created, the timer callback did not run,
    and no timer is pending at the end. *)
Record calm (w w' : World) : Prop := {
  calm_timers : timers w' = [];
  calm_config : _popupConfig w' = _popupConfig w;
  calm_creations : creations (log w') = creations (log w);
  calm_callback : callback_runs (log w') = callback_runs (log w);
  calm_absent : _componentRef w = None -> _componentRef w' = None
}.

(** A result with the records of calls of [toggle()] left out of the log:
    what is left is everything a call did other than being [toggle()]. *)
Definition ignoring_toggle (r : Res unit) : Res unit :=
  match r with
  | Ok a w =>
      Ok a (set_log (filter (fun e => e <> Called MToggle) (log w)) w)
  | Throw e => Throw e
  end.

(** The table of section 4.2 of the specification: which method a raw event
    of the anchor stands for under each trigger mode. *)
Definition intent (t : PopupTrigger) (e : RawEvent) : option Method :=
  match t, e with
  | Hover, MouseEnter => Some MOpen
  | Hover, MouseLeave => Some MClose
  | Click, AnchorClick => Some MToggle
  | OutsideClick, AnchorClick => Some MToggle
  | Focus, FocusIn => Some MOpen
  | Focus, FocusOut => Some MClose
  | _, _ => None
  end.

(** The condition of the claim on document clicks: the mode is
    [OutsideClick], an instance exists, and the target is outside the
    anchor element. *)
Definition closes_on_document_click (w : World) (target : node) : bool :=
  bool_decide (trigger (_popupConfig w) = OutsideClick)
  && bool_decide (is_Some (_componentRef w))
  && negb (contains (document w) (_element w) target).

(** *** The parts a step is made of *)

(** What [open()] does after recording its call: the pending timer of the
    stored handle is dropped and a new one, due a full delay from now, is
    stored. *)
Definition armed (w : World) : World :=
  set_openingTimeout (Some (next_timer w))
    (set_timers ((next_timer w, clock w + delay (_popupConfig w))
                   :: clear (_openingTimeout w) (timers w))
                (S (next_timer w)) w).

(** [clearTimeout] of any handle. *)
Definition dropped (h : option nat) (w : World) : World :=
  set_timers (clear h (timers w)) (next_timer w) w.

(** A call of [open()] or [close()] on the popup instance held. *)
Definition popup_called (f : P -> P) (e : nat -> Effect) (c : ComponentRef)
    (w : World) : World :=
  logged (e (ref_id c))
    (set_componentRef (Some (with_instance (run_transition f) c)) w).

(** What the timer callback does when there is no component. *)
Definition born (w : World) : World :=
  set_log (PopupOpen (next_ref w) :: Created (next_ref w) :: log w)
    (set_componentRef (Some (created_ref w))
    (set_document
       (<[next_node w := body w]>
          (place_beside (_element w) (next_node w) (document w)))
       (S (next_node w))
    (set_views (next_ref w :: views w) (S (next_ref w)) w))).

(** What the subscriber of [onClose] does when there is a component. *)
Definition gone (c : ComponentRef) (w : World) : World :=
  set_componentRef None (destroyed c w).

(** *** The protocol of effects *)

(** One effect, given the component that is alive before it: a component
    is created only when none is alive, and it is the alive one that is
    opened, closed and destroyed. *)
Definition follow (e : Effect) (alive : option nat) : option (option nat) :=
  match e, alive with
  | Called _, _ => Some alive
  | Created i, None => Some (Some i)
  | Created _, Some _ => None
  | Destroyed i, Some j => if decide (i = j) then Some None else None
  | PopupOpen i, Some j => if decide (i = j) then Some alive else None
  | PopupClose i, Some j => if decide (i = j) then Some alive else None
  | Destroyed _, None => None
  | PopupOpen _, None => None
  | PopupClose _, None => None
  end.

(** A whole log, newest effect first: the component alive at the end if
    every effect follows the protocol. *)
Fixpoint protocol (l : list Effect) : option (option nat) :=
  match l with
  | [] => Some None
  | e :: l' => match protocol l' with
               | Some alive => follow e alive
               | None => None
               end
  end.

(** *** Time and ignored events *)

Definition elapse_of (e : Event) : nat :=
  match e with
  | Elapse dt => dt
  | _ => 0
  end.

Definition elapsed (es : list Event) : nat :=
  foldr (fun e n => elapse_of e + n) 0 es.

(** The events of the anchor and of the document that mean nothing under a
    configuration: raw events outside the mode's columns, and document
    clicks under every mode but [OutsideClick]. *)
Definition ignored (cfg : PopupConfig) (e : Event) : bool :=
  match e with
  | Raw r => bool_decide (intent (trigger cfg) r = None)
  | DocumentClick _ => bool_decide (trigger cfg <> OutsideClick)
  | _ => false
  end.

End Controller.

Arguments SuiPopup P : clear implicits.
Arguments ComponentRef P : clear implicits.
Arguments World P : clear implicits.
Arguments Res P A : clear implicits.
Arguments M P A : clear implicits.
Arguments Ok {P A} a w.
Arguments Throw {P A} e.
Arguments init P el cfg bd doc fresh : clear implicits.

(** *** A concrete page *)

(** A popup whose whole state is its [isOpen] flag. *)
Definition FlagPopup : PopupImpl bool :=
  {| popup_new := false;
     popup_open := fun _ => true;
     popup_close := fun _ => false;
     popup_isOpen := fun b => b |}.

(** A document [html(1) > body(2) > div(3) > input(4)] with the directive
    on the input, closing on outside clicks, opening after 5 ms. *)
Definition page_config : PopupConfig :=
  {| trigger := OutsideClick; delay := 5; template := None |}.

Definition page_document : gmap node node :=
  <[4 := 3]> (<[3 := 2]> (<[2 := 1]> ∅)).

Definition page : World bool :=
  Eval vm_compute in init bool 4 page_config 2 page_document 10.

Definition after (es : list Event) (w : World bool) : World bool :=
  match run (H := FlagPopup) es w with
  | Ok _ w' => w'
  | Throw _ => w
  end.

(** The page once the popup has been opened: the component is number 0 and
    its host element is node 10. *)
Definition page_open : World bool :=
  Eval vm_compute in after [Call MOpen; Elapse 5; Timer 1] page.

(** The same page with the directive opening on focus, at once, and with
    the directive left to manual control. *)
Definition focus_config : PopupConfig :=
  {| trigger := Focus; delay := 0; template := Some 7 |}.

Definition focus_page : World bool :=
  Eval vm_compute in init bool 4 focus_config 2 page_document 10.

Definition manual_config : PopupConfig :=
  {| trigger := Manual; delay := 5; template := None |}.

Definition manual_page : World bool :=
  Eval vm_compute in init bool 4 manual_config 2 page_document 10.




Definition page_popup : ComponentRef bool :=
  Eval vm_compute in
    {| ref_id := 0; location := 10;
       instance := created_popup (H := FlagPopup) page |}.

End Popup.

(** ** The datepicker directive ([SuiDatepickerDirective]) *)
Module Datepicker.

(** The values a property binding can hand to a setter at run time. *)
Inductive JsValue :=
| VUndefined
| VNull
| VBoolean (b : bool)
| VNumber (n : Z)
| VString (s : string).

#[global] Instance JsValue_eq_dec : EqDecision JsValue.
Proof. solve_decision. Defined.

(** The truthiness that [if (mode)] tests. *)
Definition truthy (v : JsValue) : bool :=
  match v with
  | VUndefined | VNull => false
  | VBoolean b => b
  | VNumber n => negb (n =? 0)%Z
  | VString s => negb (String.eqb s "")
  end.

(** Modelled from the spec: the declaration of [DatepickerMode]
    ([../components/datepicker]) is not part of the source file. It is an
    enumeration with the five members Year, Month, Date, Datetime and Time
    (section 3 of the specification); what values stand for them is left
    open here. *)
Class DatepickerMode := {
  Year : JsValue;
  Month : JsValue;
  Date : JsValue;
  Datetime : JsValue;
  Time : JsValue
}.

Definition members `{DatepickerMode} : list JsValue :=
  [Year; Month; Date; Datetime; Time].

(** The five classes of [calendar-config] that the setter instantiates. *)
Inductive CalendarConfig :=
| YearConfig
| MonthConfig
| DateConfig
| DatetimeConfig
| TimeConfig.

(** The members of the [SuiDatepicker] component that the directive
    assigns to. *)
Module SuiDatepicker.

Record t (D : Type) := {
  config : option CalendarConfig;
  selectedDate : option D;
  maxDate : option D;
  minDate : option D;
  firstDayOfWeek : option nat
}.
Arguments config {D} _.
Arguments selectedDate {D} _.
Arguments maxDate {D} _.
Arguments minDate {D} _.
Arguments firstDayOfWeek {D} _.

Definition assign_selectedDate {D} (v : option D) (c : t D) : t D :=
  {| config := config c; selectedDate := v; maxDate := maxDate c;
     minDate := minDate c; firstDayOfWeek := firstDayOfWeek c |}.

End SuiDatepicker.

(** The directive's own fields. [onDateChange] is the list of the values
    emitted so far, newest first. Modelled from the spec: the getter
    [componentInstance] belongs to [SuiPopupComponentController], which is
    not part of the source file; it is the live picker instance if one
    exists. *)
Record Directive (D : Type) := {
  _selectedDate : option D;
  _mode : JsValue;
  config : option CalendarConfig;
  maxDate : option D;
  minDate : option D;
  firstDayOfWeek : option nat;
  onDateChange : list (option D);
  componentInstance : option (SuiDatepicker.t D)
}.
Arguments _selectedDate {D} _.
Arguments _mode {D} _.
Arguments config {D} _.
Arguments maxDate {D} _.
Arguments minDate {D} _.
Arguments firstDayOfWeek {D} _.
Arguments onDateChange {D} _.
Arguments componentInstance {D} _.

Section Directive.
Context {D : Type} `{DatepickerMode}.

(** [get selectedDate] and [set selectedDate]. *)
Definition selectedDate (d : Directive D) : option D := _selectedDate d.

Definition set_selectedDate (date : option D) (d : Directive D) : Directive D :=
  {| _selectedDate := date; _mode := _mode d; config := config d;
     maxDate := maxDate d; minDate := minDate d;
     firstDayOfWeek := firstDayOfWeek d;
     onDateChange := date :: onDateChange d;
     componentInstance := componentInstance d |}.

(** A [switch] statement whose clauses all end in [break]: the first
    [case] that is strictly equal to the value is taken, in source order,
    and [default] only when there is none, wherever it is written. *)
Fixpoint switch {A} (v : JsValue) (cases : list (JsValue * A)) (default : A) : A :=
  match cases with
  | [] => default
  | (k, a) :: rest => if decide (v = k) then a else switch v rest default
  end.

(** [get mode] and [set mode]. *)
Definition mode (d : Directive D) : JsValue := _mode d.

Definition set_mode (mode : JsValue) (d : Directive D) : Directive D :=
  {| _selectedDate := _selectedDate d;
     _mode := if truthy mode then mode else _mode d;
     config := Some (switch mode
                       [(Year, YearConfig); (Month, MonthConfig);
                        (Date, DateConfig); (Datetime, DatetimeConfig);
                        (Time, TimeConfig)]
                       DateConfig);
     maxDate := maxDate d; minDate := minDate d;
     firstDayOfWeek := firstDayOfWeek d;
     onDateChange := onDateChange d;
     componentInstance := componentInstance d |}.

Definition writeValue (value : option D) (d : Directive D) : Directive D :=
  let d1 := set_selectedDate value d in
  match componentInstance d1 with
  | Some c =>
      {| _selectedDate := _selectedDate d1; _mode := _mode d1;
         config := config d1; maxDate := maxDate d1; minDate := minDate d1;
         firstDayOfWeek := firstDayOfWeek d1;
         onDateChange := onDateChange d1;
         componentInstance := Some (SuiDatepicker.assign_selectedDate value c) |}
  | None => d1
  end.

End Directive.

(** *** The picker behind the directive *)

(** The closures subscribed to the picker's [onDateChange]. The directive
    has one: the arrow function of [popupOnOpen], which stores the date
    and closes the popup. *)
Inductive Listener := SelectAndClose.

(** The directive together with what [popupOnOpen] and its subscriber
    reach beyond the directive's own fields: the calls of
    [service.reset()] and the subscriptions of [onDateChange] of the live
    picker instance, and the calls of the directive's [close()], a method
    of the controller class it extends, which is not part of the source
    file. *)
Record Host (D : Type) := {
  directive : Directive D;
  resets : nat;
  listeners : list Listener;
  closes : nat
}.
Arguments directive {D} _.
Arguments resets {D} _.
Arguments listeners {D} _.
Arguments closes {D} _.

Section Host.
Context {D : Type} `{DatepickerMode}.

(** The configuration class that [switch (mode)] of the setter selects. *)
Definition config_for (v : JsValue) : CalendarConfig :=
  switch v
    [(Year, YearConfig); (Month, MonthConfig); (Date, DateConfig);
     (Datetime, DatetimeConfig); (Time, TimeConfig)]
    DateConfig.

(** A method of the directive that touches its own fields only. *)
Definition on_directive (f : Directive D -> Directive D) (h : Host D) : Host D :=
  {| directive := f (directive h); resets := resets h;
     listeners := listeners h; closes := closes h |}.

(** The five assignments of [popupOnOpen] to the picker instance. *)
Definition pushed (d : Directive D) : SuiDatepicker.t D :=
  {| SuiDatepicker.config := config d;
     SuiDatepicker.selectedDate := selectedDate d;
     SuiDatepicker.maxDate := maxDate d;
     SuiDatepicker.minDate := minDate d;
     SuiDatepicker.firstDayOfWeek := firstDayOfWeek d |}.

Definition with_picker (c : SuiDatepicker.t D) (d : Directive D) : Directive D :=
  {| _selectedDate := _selectedDate d; _mode := _mode d; config := config d;
     maxDate := maxDate d; minDate := minDate d;
     firstDayOfWeek := firstDayOfWeek d;
     onDateChange := onDateChange d;
     componentInstance := Some c |}.

Definition popupOnOpen (h : Host D) : Host D :=
  match componentInstance (directive h) with
  | Some _ =>
      {| directive := with_picker (pushed (directive h)) (directive h);
         resets := S (resets h);
         listeners := listeners h ++ [SelectAndClose];
         closes := closes h |}
  | None => h
  end.

(** The subscriber of [popupOnOpen]: [this.selectedDate = d; this.close()]. *)
Definition run_listener (l : Listener) (d : D) (h : Host D) : Host D :=
  match l with
  | SelectAndClose =>
      {| directive := set_selectedDate (Some d) (directive h);
         resets := resets h; listeners := listeners h;
         closes := S (closes h) |}
  end.

Fixpoint notify (ls : list Listener) (d : D) (h : Host D) : Host D :=
  match ls with
  | [] => h
  | l :: ls' => notify ls' d (run_listener l d h)
  end.

(** The picker emits [onDateChange] with the date chosen in it. *)
Definition dateChosen (d : D) (h : Host D) : Host D :=
  notify (listeners h) d h.

(** Successive calls of [writeValue], first value first. *)
Definition writeValues (vs : list (option D)) (d : Directive D) : Directive D :=
  fold_left (fun d v => writeValue v d) vs d.

End Host.

(** *** A concrete enumeration *)

(** The members as lower-case strings. *)
Definition StringModes : DatepickerMode :=
  {| Year := VString "year"; Month := VString "month";
     Date := VString "date"; Datetime := VString "datetime";
     Time := VString "time" |}.

(** A directive on which nothing has been set, and one with a live picker
    instance. *)
Definition blank : Directive Z :=
  {| _selectedDate := None; _mode := VUndefined; config := None;
     maxDate := None; minDate := None; firstDayOfWeek := None;
     onDateChange := []; componentInstance := None |}.

Definition blank_picker : SuiDatepicker.t Z :=
  {| SuiDatepicker.config := None; SuiDatepicker.selectedDate := None;
     SuiDatepicker.maxDate := None; SuiDatepicker.minDate := None;
     SuiDatepicker.firstDayOfWeek := None |}.

Definition showing : Directive Z :=
  {| _selectedDate := Some 7%Z; _mode := VString "date";
     config := Some DateConfig;
     maxDate := None; minDate := None; firstDayOfWeek := None;
     onDateChange := [Some 7%Z]; componentInstance := Some blank_picker |}.

(** A directive with bounds and a first day of the week set, its picker
    live and still blank. *)
Definition bounded : Host Z :=
  {| directive :=
       {| _selectedDate := Some 7%Z; _mode := VString "date";
          config := Some DateConfig;
          maxDate := Some 20%Z; minDate := Some 1%Z;
          firstDayOfWeek := Some 1;
          onDateChange := [Some 7%Z];
          componentInstance := Some blank_picker |};
     resets := 0; listeners := []; closes := 0 |}.

(** The directive with its picker shown, nothing subscribed yet. *)
Definition shown : Host Z :=
  {| directive := showing; resets := 0; listeners := []; closes := 0 |}.

End Datepicker.

(** ** Properties of the popup lifecycle controller *)
Module PopupTheory.
Import Popup.

Section PopupProofs.
Context {P : Type} `{PopupImpl P}.
Implicit Types (w : World P) (c : ComponentRef P).

(** *** What each method does to the world *)

Ltac unfold_m :=
  unfold open, close, toggle, wants_open, popup_call, update_popup, _popup,
    clearTimeout, setTimeout, appendChild, note, bind, gets, modify, ret,
    throw, logged, cancelled.

Lemma popup_call_eq f e w c :
  _componentRef w = Some c ->
  popup_call f e w =
    Ok tt (logged (e (ref_id c))
             (set_componentRef (Some (with_instance (run_transition f) c)) w)).
Proof.
  intros Hc. unfold_m. rewrite Hc. cbn. rewrite Hc. reflexivity.
Qed.

Lemma open_eq w :
  open w =
    Ok tt (set_openingTimeout (Some (next_timer w))
            (set_timers ((next_timer w, clock w + delay (_popupConfig w))
                           :: clear (_openingTimeout w) (timers w))
                        (S (next_timer w))
              (logged (Called MOpen) w))).
Proof. reflexivity. Qed.

Lemma close_none w :
  _componentRef w = None ->
  close w = Ok tt (cancelled (logged (Called MClose) w)).
Proof. intros Hc. unfold_m. cbn. rewrite Hc. reflexivity. Qed.

Lemma close_some w c :
  _componentRef w = Some c ->
  close w =
    Ok tt (logged (PopupClose (ref_id c))
            (set_componentRef
               (Some (with_instance (run_transition popup_close) c))
               (cancelled (logged (Called MClose) w)))).
Proof.
  intros Hc. unfold close, clearTimeout, note, bind, gets, modify. cbn.
  rewrite Hc. erewrite popup_call_eq by (cbn; eassumption). reflexivity.
Qed.

Lemma open_callback_some w c :
  _componentRef w = Some c ->
  open_callback w =
    Ok tt (logged (PopupOpen (ref_id c))
            (set_componentRef
               (Some (with_instance (run_transition popup_open) c)) w)).
Proof.
  intros Hc. unfold open_callback, bind, gets, ret. rewrite Hc.
  apply popup_call_eq, Hc.
Qed.

Lemma open_callback_none w :
  _componentRef w = None ->
  open_callback w =
    Ok tt (set_log (PopupOpen (next_ref w) :: Created (next_ref w) :: log w)
          (set_componentRef (Some (created_ref w))
          (set_document
             (<[next_node w := body w]>
                (place_beside (_element w) (next_node w) (document w)))
             (S (next_node w))
          (set_views (next_ref w :: views w) (S (next_ref w)) w)))).
Proof.
  intros Hc. unfold open_callback, createComponent, bind, gets, modify.
  rewrite Hc. unfold created_ref, created_popup. cbn.
  destruct (template (_popupConfig w)); reflexivity.
Qed.

Lemma emit_onClose_eq w c :
  _componentRef w = Some c ->
  onClose (instance c) = [DestroyOnClose] ->
  emit_onClose w = Ok tt (set_componentRef None (destroyed c w)).
Proof.
  intros Hc Hs. unfold emit_onClose, bind, gets. rewrite Hc, Hs. cbn.
  unfold bind, gets. rewrite Hc. reflexivity.
Qed.

Lemma emit_onClose_none w :
  _componentRef w = None -> emit_onClose w = Ok tt w.
Proof. intros Hc. unfold emit_onClose, bind, gets. rewrite Hc. reflexivity. Qed.

(** *** Invariants of the reachable worlds *)

Lemma clear_owned h (ts : list (nat * nat)) :
  Forall (fun t => h = Some t.1) ts -> clear h ts = [].
Proof.
  intros Hts. destruct h as [i|]; cbn.
  - induction Hts as [|t ts Ht _ IH]; [reflexivity|].
    rewrite filter_cons, IH. destruct (decide (t.1 <> i)) as [Hne|]; [|reflexivity].
    congruence.
  - destruct Hts as [|t ts Ht _]; [reflexivity | discriminate].
Qed.

Lemma clear_sub h (ts : list (nat * nat)) (Q : nat * nat -> Prop) :
  Forall Q ts -> Forall Q (clear h ts).
Proof.
  intros Hts. destruct h as [i|]; cbn; [|exact Hts].
  apply Forall_forall. intros t Ht. apply list_elem_of_filter in Ht as [_ Ht].
  revert t Ht. apply Forall_forall, Hts.
Qed.

Lemma clear_gone i (ts : list (nat * nat)) :
  Forall (fun t => t.1 <> i) (clear (Some i) ts).
Proof.
  cbn. apply Forall_forall. intros t Ht.
  apply list_elem_of_filter in Ht as [Ht _]. exact Ht.
Qed.

Lemma inv_init el cfg bd doc fresh : inv (init P el cfg bd doc fresh).
Proof. split; cbn; [constructor | reflexivity | constructor | discriminate]. Qed.

Lemma inv_open w w' : inv w -> open w = Ok tt w' -> inv w'.
Proof.
  intros [Ht Hv Hc Hr]. rewrite open_eq. intros [= <-]. split; cbn.
  - rewrite (clear_owned _ _ Ht). repeat constructor.
  - exact Hv.
  - exact Hc.
  - exact Hr.
Qed.

Lemma inv_close w w' : inv w -> close w = Ok tt w' -> inv w'.
Proof.
  intros [Ht Hv Hc Hr]. destruct (_componentRef w) as [c|] eqn:Hw.
  - rewrite (close_some _ _ Hw). intros [= <-]. split; cbn.
    + apply clear_sub, Ht.
    + exact Hv.
    + exact Hc.
    + intros c' [= <-]. cbn. apply Hr. reflexivity.
  - rewrite (close_none _ Hw). intros [= <-]. split; cbn.
    + apply clear_sub, Ht.
    + rewrite Hw. exact Hv.
    + exact Hc.
    + rewrite Hw. discriminate.
Qed.

Lemma inv_logged e w :
  (forall i, e <> Created i) -> inv w -> inv (logged e w).
Proof.
  intros He [Ht Hv Hc Hr]. split; cbn; try assumption.
  destruct e; try exact Hc. destruct (He id eq_refl).
Qed.

Lemma toggle_none w :
  _componentRef w = None -> toggle w = open (logged (Called MToggle) w).
Proof.
  intros Hw. unfold toggle, wants_open, note, bind, gets, modify, ret. cbn.
  rewrite Hw. reflexivity.
Qed.

Lemma toggle_some w c :
  _componentRef w = Some c ->
  toggle w =
    (if popup_isOpen (transition (instance c)) then close else open)
      (logged (Called MToggle) w).
Proof.
  intros Hw. unfold toggle, wants_open, _popup, note, bind, gets, modify, ret.
  do 3 (cbn; rewrite ?Hw). destruct (popup_isOpen _); reflexivity.
Qed.

Lemma inv_toggle w w' : inv w -> toggle w = Ok tt w' -> inv w'.
Proof.
  intros Hi.
  pose proof (inv_logged (Called MToggle) w ltac:(discriminate) Hi) as Hl.
  destruct (_componentRef w) as [c|] eqn:Hw.
  - rewrite (toggle_some _ _ Hw).
    destruct (popup_isOpen _); [apply inv_close | apply inv_open]; exact Hl.
  - rewrite (toggle_none _ Hw). apply inv_open, Hl.
Qed.

Lemma inv_open_callback w w' : inv w -> open_callback w = Ok tt w' -> inv w'.
Proof.
  intros [Ht Hv Hc Hr]. destruct (_componentRef w) as [c|] eqn:Hw.
  - rewrite (open_callback_some _ _ Hw). intros [= <-]. split; cbn.
    + exact Ht.
    + exact Hv.
    + exact Hc.
    + intros c' [= <-]. cbn. apply Hr. reflexivity.
  - rewrite (open_callback_none _ Hw). intros [= <-]. split; cbn.
    + exact Ht.
    + rewrite Hv. reflexivity.
    + constructor; [lia|]. eapply Forall_impl; [exact Hc|]. cbn. lia.
    + intros c' [= <-]. cbn. split; [lia | reflexivity].
Qed.

Lemma inv_emit_onClose w w' : inv w -> emit_onClose w = Ok tt w' -> inv w'.
Proof.
  intros Hi. pose proof Hi as [Ht Hv Hc Hr].
  destruct (_componentRef w) as [c|] eqn:Hw.
  - destruct (Hr c eq_refl) as [_ Hs].
    rewrite (emit_onClose_eq _ _ Hw Hs). intros [= <-]. split; cbn.
    + exact Ht.
    + rewrite Hv. cbn. rewrite decide_False by tauto. reflexivity.
    + exact Hc.
    + discriminate.
  - rewrite (emit_onClose_none _ Hw). intros [= <-]. exact Hi.
Qed.

Lemma fire_eq h w :
  fire h w =
    if due h w
    then open_callback
           (set_timers (clear (Some h) (timers w)) (next_timer w) w)
    else Ok tt w.
Proof.
  unfold fire, bind, gets, modify, ret, id. destruct (due h w); reflexivity.
Qed.

Lemma inv_fire h w w' : inv w -> fire h w = Ok tt w' -> inv w'.
Proof.
  intros Hi. rewrite fire_eq.
  destruct (due h w); [|intros [= <-]; exact Hi].
  apply inv_open_callback. destruct Hi as [Ht Hv Hc Hr].
  split; cbn; try assumption. apply (clear_sub (Some h)), Ht.
Qed.

Lemma inv_step e w w' : inv w -> step e w = Ok tt w' -> inv w'.
Proof.
  intros Hi. destruct e as [m|e|t|dt|h|]; cbn.
  - destruct m; [apply inv_open | apply inv_close | apply inv_toggle]; exact Hi.
  - destruct e; cbn;
      unfold onMouseEnter, onMouseLeave, onClick, onFocus, onFocusOut, bind,
        gets, ret;
      match goal with |- context [if ?b then _ else _] => destruct b end;
      first [ intros [= <-]; exact Hi
            | apply inv_open, Hi | apply inv_close, Hi | apply inv_toggle, Hi ].
  - unfold onDocumentClick, bind, gets, ret.
    destruct (_componentRef w); [|intros [= <-]; exact Hi].
    destruct (decide _); [|intros [= <-]; exact Hi].
    destruct (negb _); [apply inv_close, Hi | intros [= <-]; exact Hi].
  - unfold modify. intros [= <-]. destruct Hi as [Ht Hv Hc Hr].
    split; cbn; assumption.
  - apply inv_fire, Hi.
  - apply inv_emit_onClose, Hi.
Qed.

Lemma reachable_inv w : reachable w -> inv w.
Proof.
  induction 1 as [el cfg bd doc fresh | w e w' _ IH Hs].
  - apply inv_init.
  - eapply inv_step; eassumption.
Qed.

(** *** Opening and closing within the delay *)

Lemma calm_refl w : timers w = [] -> calm w w.
Proof. intros Ht. split; auto. Qed.

Lemma calm_trans w1 w2 w3 : calm w1 w2 -> calm w2 w3 -> calm w1 w3.
Proof.
  intros [_ C1 K1 B1 A1] [T2 C2 K2 B2 A2].
  split; [assumption | congruence | congruence | congruence | auto].
Qed.

Lemma close_calm w :
  timers w = [] -> exists w', close w = Ok tt w' /\ calm w w'.
Proof.
  intros Ht. destruct (_componentRef w) as [c|] eqn:Hw.
  - rewrite (close_some _ _ Hw). eexists. split; [reflexivity|].
    split; cbn; try reflexivity.
    + rewrite Ht. destruct (_openingTimeout w); reflexivity.
    + rewrite Hw. discriminate.
  - rewrite (close_none _ Hw). eexists. split; [reflexivity|].
    split; cbn; try reflexivity.
    + rewrite Ht. destruct (_openingTimeout w); reflexivity.
    + auto.
Qed.

Lemma due_nil h w : timers w = [] -> due h w = false.
Proof.
  intros Ht. unfold due. rewrite Ht. apply bool_decide_eq_false.
  intros Hex. inversion Hex.
Qed.

Lemma quiet_step e w :
  inv w -> timers w = [] -> requests_open (_popupConfig w) e = false ->
  exists w', step e w = Ok tt w' /\ calm w w'.
Proof.
  intros Hi Ht Hq. destruct e as [m|e|t|dt|h|]; cbn [step handle invoke requests_open] in *.
  - destruct m; try discriminate. apply close_calm, Ht.
  - destruct e; cbn [step handle invoke requests_open] in *;
      unfold onMouseEnter, onMouseLeave, onClick, onFocus, onFocusOut, bind,
        gets, ret.
    + rewrite decide_bool_decide, Hq. eauto using calm_refl.
    + destruct (decide _); [apply close_calm, Ht | eauto using calm_refl].
    + rewrite Hq. eauto using calm_refl.
    + rewrite decide_bool_decide, Hq. eauto using calm_refl.
    + destruct (decide _); [apply close_calm, Ht | eauto using calm_refl].
  - unfold onDocumentClick, bind, gets, ret.
    destruct (_componentRef w); [|eauto using calm_refl].
    destruct (decide _); [|eauto using calm_refl].
    destruct (negb _); [apply close_calm, Ht | eauto using calm_refl].
  - unfold modify. eexists. split; [reflexivity|]. split; cbn; auto.
  - rewrite fire_eq, (due_nil _ _ Ht). eauto using calm_refl.
  - destruct (_componentRef w) as [c|] eqn:Hw.
    + destruct (inv_ref _ Hi c Hw) as [_ Hs].
      rewrite (emit_onClose_eq _ _ Hw Hs). eexists. split; [reflexivity|].
      split; cbn; auto.
    + rewrite (emit_onClose_none _ Hw). eauto using calm_refl.
Qed.

Lemma run_cons e es w :
  run (e :: es) w =
    match step e w with Ok _ w' => run es w' | Throw x => Throw x end.
Proof. reflexivity. Qed.

Lemma quiet_run es : forall w,
  inv w -> timers w = [] ->
  forallb (fun e => negb (requests_open (_popupConfig w) e)) es = true ->
  exists w', run es w = Ok tt w' /\ calm w w'.
Proof.
  induction es as [|e es IH]; intros w Hi Ht Hq.
  - exists w. split; [reflexivity | apply calm_refl, Ht].
  - cbn in Hq. apply andb_true_iff in Hq as [He Hes].
    apply negb_true_iff in He.
    destruct (quiet_step e w Hi Ht He) as (w1 & Hs & Hc1).
    rewrite run_cons, Hs.
    destruct (IH w1) as (w2 & Hr & Hc2).
    + eapply inv_step; eassumption.
    + apply Hc1.
    + rewrite (calm_config _ _ Hc1). exact Hes.
    + exists w2. split; [exact Hr | eapply calm_trans; eassumption].
Qed.

(** Claim C1. From any reachable world, [open()] followed by [close()]
    before the timer callback has run leaves no timer pending, and however
    the controller is used afterwards, as long as nothing requests an
    opening again, the callback never runs and no popup instance is ever
    created. *)
Theorem open_close_never_creates w dt es :
  reachable w ->
  forallb (fun e => negb (requests_open (_popupConfig w) e)) es = true ->
  exists w1 w2,
    run [Call MOpen; Elapse dt; Call MClose] w = Ok tt w1 /\
    timers w1 = [] /\
    run es w1 = Ok tt w2 /\
    creations (log w2) = creations (log w) /\
    callback_runs (log w2) = callback_runs (log w) /\
    (_componentRef w = None -> _componentRef w2 = None).
Proof.
  intros Hr Hq. pose proof (reachable_inv _ Hr) as Hi.
  assert (exists w1, run [Call MOpen; Elapse dt; Call MClose] w = Ok tt w1 /\
            inv w1 /\ timers w1 = [] /\ _popupConfig w1 = _popupConfig w /\
            creations (log w1) = creations (log w) /\
            callback_runs (log w1) = callback_runs (log w) /\
            (_componentRef w = None -> _componentRef w1 = None))
    as (w1 & Hrun & Hi1 & Ht1 & Hc1 & Hk1 & Hb1 & Ha1).
  { rewrite run_cons. cbn [step invoke]. rewrite open_eq.
    rewrite run_cons. cbn [step]. unfold modify at 1.
    rewrite run_cons. cbn [step invoke run]. unfold bind, ret.
    rewrite (clear_owned _ _ (inv_timers _ Hi)).
    match goal with |- context [close ?x] => set (wb := x) end.
    assert (inv wb) as Hib.
    { eapply (inv_step (Elapse dt)); [eapply inv_open; [exact Hi | apply open_eq]|].
      cbn. unfold modify. subst wb. rewrite (clear_owned _ _ (inv_timers _ Hi)).
      reflexivity. }
    assert (clear (_openingTimeout wb) (timers wb) = []) as Hcl.
    { subst wb. cbn. rewrite decide_False by tauto. reflexivity. }
    destruct (_componentRef w) as [c|] eqn:Hw.
    - rewrite (close_some wb c) by exact Hw.
      eexists. split; [reflexivity|]. split.
      { eapply inv_close; [exact Hib | apply close_some, Hw]. }
      cbn -[clear]. repeat split; try reflexivity; try exact Hcl. discriminate.
    - rewrite (close_none wb) by exact Hw.
      eexists. split; [reflexivity|]. split.
      { eapply inv_close; [exact Hib | apply close_none, Hw]. }
      cbn -[clear]. repeat split; try reflexivity; try exact Hcl. auto. }
  destruct (quiet_run es w1 Hi1 Ht1) as (w2 & Hrun2 & Hcalm).
  { rewrite Hc1. exact Hq. }
  exists w1, w2. destruct Hcalm as [_ _ K B A].
  repeat split; [exact Hrun | exact Ht1 | exact Hrun2 | congruence | congruence | auto].
Qed.

(** Claim C2. In every reachable world the views of the container are
    exactly the component the directive refers to, so at most one popup
    instance exists; and when the timer callback runs while one exists, it
    creates nothing and only calls [open()] on that instance. *)
Theorem at_most_one_instance w :
  reachable w ->
  views w = match _componentRef w with
            | Some c => [ref_id c]
            | None => []
            end /\
  length (views w) <= 1 /\
  forall c, _componentRef w = Some c ->
    open_callback w =
      Ok tt (logged (PopupOpen (ref_id c))
              (set_componentRef
                 (Some (with_instance (run_transition popup_open) c)) w)) /\
    forall w', open_callback w = Ok tt w' ->
      views w' = views w /\ next_ref w' = next_ref w /\
      creations (log w') = creations (log w) /\
      exists c', _componentRef w' = Some c' /\ ref_id c' = ref_id c.
Proof.
  intros Hr. pose proof (reachable_inv _ Hr) as Hi.
  pose proof (inv_views _ Hi) as Hv. split; [exact Hv|]. split.
  - rewrite Hv. destruct (_componentRef w); cbn; lia.
  - intros c Hc. split; [apply open_callback_some, Hc|].
    rewrite (open_callback_some _ _ Hc). intros w' [= <-]. cbn.
    repeat split. eexists. split; reflexivity.
Qed.

(** Claim C3. In every reachable world that holds a popup instance, that
    instance has the destroying subscriber registered on [onClose] exactly
    once; when [onClose] fires the component is destroyed and the reference
    cleared; and the next [open()], once its timer has run, refers to a
    component with an identity that no earlier component had, built from
    scratch. *)
Theorem close_completion_clears w c :
  reachable w -> _componentRef w = Some c ->
  onClose (instance c) = [DestroyOnClose] /\
  exists w1,
    step CloseCompleted w = Ok tt w1 /\
    _componentRef w1 = None /\
    views w1 = [] /\
    log w1 = Destroyed (ref_id c) :: log w /\
    forall dt, exists w2 c',
      run [Call MOpen; Elapse (delay (_popupConfig w1) + dt);
           Timer (next_timer w1)] w1 = Ok tt w2 /\
      _componentRef w2 = Some c' /\
      ref_id c' <> ref_id c /\
      (ref_id c' ∉ creations (log w1)) /\
      views w2 = [ref_id c'] /\
      instance c' = created_popup w1.
Proof.
  intros Hr Hc. pose proof (reachable_inv _ Hr) as Hi.
  destruct (inv_ref _ Hi c Hc) as [Hlt Hs]. split; [exact Hs|].
  cbn [step]. rewrite (emit_onClose_eq _ _ Hc Hs).
  eexists. split; [reflexivity|].
  match goal with |- context [_componentRef ?x = None] => set (w1 := x) end.
  assert (inv w1) as Hi1.
  { eapply inv_emit_onClose; [exact Hi | apply emit_onClose_eq; assumption]. }
  split; [reflexivity|]. split.
  { cbn. rewrite (inv_views _ Hi), Hc. cbn. rewrite decide_False by tauto.
    reflexivity. }
  split; [reflexivity|]. intros dt.
  rewrite run_cons. cbn [step invoke]. rewrite open_eq.
  rewrite run_cons. cbn [step]. unfold modify at 1.
  rewrite run_cons. cbn [step run]. rewrite fire_eq.
  match goal with |- context [due _ ?x] => set (wb := x) end.
  assert (due (next_timer w1) wb = true) as ->.
  { unfold due. apply bool_decide_eq_true. subst wb. cbn.
    apply Exists_cons_hd. cbn. split; [reflexivity | lia]. }
  rewrite open_callback_none by reflexivity. unfold bind, ret.
  eexists _, _. split; [reflexivity|].
  split; [reflexivity|]. cbn. split; [lia|]. split.
  { intros Hin. pose proof (inv_created _ Hi) as Hk.
    rewrite Forall_forall in Hk. apply Hk in Hin. lia. }
  split; [|reflexivity].
  rewrite (inv_views _ Hi), Hc. cbn. rewrite decide_False by tauto. reflexivity.
Qed.

(** *** What a call records *)

Lemma since_app w w' l : log w' = l ++ log w -> since w w' = l.
Proof.
  intros Hl. unfold since. rewrite Hl, length_app, Nat.add_sub.
  apply take_app_length.
Qed.

Lemma since_refl w : since w w = [].
Proof. apply (since_app w w []). reflexivity. Qed.

Lemma open_since w :
  exists w', open w = Ok tt w' /\ since w w' = [Called MOpen].
Proof.
  rewrite open_eq. eexists. split; [reflexivity|].
  apply since_app. reflexivity.
Qed.

Lemma close_since w :
  exists w', close w = Ok tt w' /\
    since w w' = match _componentRef w with
                 | Some c => [PopupClose (ref_id c); Called MClose]
                 | None => [Called MClose]
                 end.
Proof.
  destruct (_componentRef w) as [c|] eqn:Hw.
  - rewrite (close_some _ _ Hw). eexists. split; [reflexivity|].
    apply since_app. reflexivity.
  - rewrite (close_none _ Hw). eexists. split; [reflexivity|].
    apply since_app. reflexivity.
Qed.

Lemma invoke_since m w :
  exists w', invoke m w = Ok tt w' /\ last (since w w') = Some (Called m).
Proof.
  destruct m; cbn [invoke].
  - destruct (open_since w) as (w' & -> & Hs).
    eexists. split; [reflexivity|]. rewrite Hs. reflexivity.
  - destruct (close_since w) as (w' & -> & Hs).
    eexists. split; [reflexivity|]. rewrite Hs.
    destruct (_componentRef w); reflexivity.
  - destruct (_componentRef w) as [c|] eqn:Hw.
    + rewrite (toggle_some _ _ Hw).
      destruct (popup_isOpen _).
      * rewrite (close_some (logged (Called MToggle) w) c Hw).
        eexists. split; [reflexivity|].
        rewrite (since_app _ _ [PopupClose (ref_id c); Called MClose;
                                Called MToggle]) by reflexivity.
        reflexivity.
      * rewrite open_eq. eexists. split; [reflexivity|].
        rewrite (since_app _ _ [Called MOpen; Called MToggle]) by reflexivity.
        reflexivity.
    + rewrite (toggle_none _ Hw), open_eq. eexists. split; [reflexivity|].
      rewrite (since_app _ _ [Called MOpen; Called MToggle]) by reflexivity.
      reflexivity.
Qed.

(** *** The trigger policy *)

(** Claim C4. For every trigger mode and every raw event of the anchor, the
    listener does exactly what the table says: it calls the method of the
    matching column, and for every other pair it calls nothing and leaves
    the world as it was. *)
Theorem trigger_policy w e :
  handle e w =
    match intent (trigger (_popupConfig w)) e with
    | Some m => invoke m w
    | None => Ok tt w
    end /\
  exists w', handle e w = Ok tt w' /\
    match intent (trigger (_popupConfig w)) e with
    | Some m => last (since w w') = Some (Called m)
    | None => w' = w /\ since w w' = []
    end.
Proof.
  assert (handle e w =
            match intent (trigger (_popupConfig w)) e with
            | Some m => invoke m w
            | None => Ok tt w
            end) as Heq.
  { destruct e; cbn [handle];
      unfold onMouseEnter, onMouseLeave, onClick, onFocus, onFocusOut, bind,
        gets, ret;
      destruct (trigger (_popupConfig w)); reflexivity. }
  split; [exact Heq|]. rewrite Heq.
  destruct (intent _ e) as [m|].
  - apply invoke_since.
  - exists w. auto using since_refl.
Qed.

(** Claim C5. A click anywhere in the document calls [close()] exactly when
    the mode is [OutsideClick], an instance exists and the target is not
    inside the anchor; it never calls [open()] or [toggle()]; a click inside
    the anchor, or under any other mode, leaves the world as it was. *)
Theorem document_click_closes w target :
  onDocumentClick target w =
    (if closes_on_document_click w target then close w else Ok tt w) /\
  (exists w', onDocumentClick target w = Ok tt w' /\
     (invoked MClose w w' <-> closes_on_document_click w target = true) /\
     ~ invoked MOpen w w' /\ ~ invoked MToggle w w') /\
  (contains (document w) (_element w) target = true ->
     onDocumentClick target w = Ok tt w) /\
  (trigger (_popupConfig w) <> OutsideClick ->
     onDocumentClick target w = Ok tt w).
Proof.
  assert (onDocumentClick target w =
            (if closes_on_document_click w target then close w else Ok tt w))
    as Heq.
  { unfold onDocumentClick, closes_on_document_click, bind, gets, ret.
    destruct (_componentRef w) as [c|].
    - rewrite (bool_decide_eq_true_2 (is_Some (Some c))) by eauto.
      destruct (decide _) as [Ht|Ht].
      + rewrite (bool_decide_eq_true_2 _ Ht). cbn.
        destruct (contains _ _ _); reflexivity.
      + rewrite (bool_decide_eq_false_2 _ Ht). reflexivity.
    - rewrite (bool_decide_eq_false_2 (is_Some None)) by (intros [? [=]]).
      rewrite andb_false_r. reflexivity. }
  split; [exact Heq|]. split; [|split].
  - rewrite Heq. destruct (closes_on_document_click w target).
    + destruct (close_since w) as (w' & -> & Hs).
      exists w'. split; [reflexivity|]. unfold invoked. rewrite Hs.
      destruct (_componentRef w); repeat split; auto;
        rewrite ?elem_of_cons, elem_of_nil; intuition congruence.
    + exists w. split; [reflexivity|]. unfold invoked. rewrite since_refl.
      repeat split; rewrite ?elem_of_nil; intuition congruence.
  - intros Hin. rewrite Heq. unfold closes_on_document_click.
    rewrite Hin, andb_false_r. reflexivity.
  - intros Hne. rewrite Heq. unfold closes_on_document_click.
    rewrite (bool_decide_eq_false_2 _ Hne). reflexivity.
Qed.

(** Claim C6. [toggle()] records its own call and then does exactly what
    [open()] does when no instance exists or the instance reports
    [isOpen] false, and exactly what [close()] does otherwise: apart from
    that record, the world it leaves is the one [open()], respectively
    [close()], leaves. *)
Theorem toggle_delegates w :
  (_componentRef w = None \/
   (exists c, _componentRef w = Some c /\
              popup_isOpen (transition (instance c)) = false) ->
   toggle w = open (logged (Called MToggle) w) /\
   ignoring_toggle (toggle w) = ignoring_toggle (open w)) /\
  ((exists c, _componentRef w = Some c /\
              popup_isOpen (transition (instance c)) = true) ->
   toggle w = close (logged (Called MToggle) w) /\
   ignoring_toggle (toggle w) = ignoring_toggle (close w)).
Proof.
  assert (ignoring_toggle (open (logged (Called MToggle) w)) =
          ignoring_toggle (open w)) as Ho.
  { rewrite !open_eq. unfold ignoring_toggle, logged. cbn.
    rewrite ?filter_cons. rewrite decide_True by discriminate.
    rewrite decide_False by (intros Hne; apply Hne; reflexivity).
    reflexivity. }
  assert (ignoring_toggle (close (logged (Called MToggle) w)) =
          ignoring_toggle (close w)) as Hc.
  { destruct (_componentRef w) as [c|] eqn:Hw.
    - rewrite (close_some (logged (Called MToggle) w) c Hw), (close_some w c Hw).
      unfold ignoring_toggle, logged, cancelled. cbn.
      rewrite ?filter_cons. rewrite !decide_True by discriminate.
      rewrite decide_False by (intros Hne; apply Hne; reflexivity).
      reflexivity.
    - rewrite (close_none (logged (Called MToggle) w) Hw), (close_none w Hw).
      unfold ignoring_toggle, logged, cancelled. cbn.
      rewrite ?filter_cons. rewrite !decide_True by discriminate.
      rewrite decide_False by (intros Hne; apply Hne; reflexivity).
      reflexivity. }
  split.
  - intros [Hw | (c & Hw & Hf)].
    + rewrite (toggle_none _ Hw). split; [reflexivity | exact Ho].
    + rewrite (toggle_some _ _ Hw), Hf. split; [reflexivity | exact Ho].
  - intros (c & Hw & Ht). rewrite (toggle_some _ _ Hw), Ht.
    split; [reflexivity | exact Hc].
Qed.

(** Claim C9. [close()] never throws. Without an instance it drops the
    pending timer and changes nothing else; with an instance it also calls
    the instance's [close()], and the component stays referenced and
    undestroyed. *)
Theorem close_tolerated w :
  (_componentRef w = None ->
   close w = Ok tt (cancelled (logged (Called MClose) w))) /\
  (forall c, _componentRef w = Some c ->
   close w =
     Ok tt (logged (PopupClose (ref_id c))
             (set_componentRef
                (Some (with_instance (run_transition popup_close) c))
                (cancelled (logged (Called MClose) w))))) /\
  exists w', close w = Ok tt w' /\
    (forall h, _openingTimeout w = Some h ->
       Forall (fun t => t.1 <> h) (timers w')) /\
    views w' = views w /\
    document w' = document w /\
    (forall i, Destroyed i ∉ since w w') /\
    (ref_id <$> _componentRef w') = (ref_id <$> _componentRef w).
Proof.
  split; [apply close_none|]. split; [apply close_some|].
  destruct (close_since w) as (w' & Hcl & Hs). exists w'.
  split; [exact Hcl|]. rewrite Hs. clear Hs.
  destruct (_componentRef w) as [c|] eqn:Hw.
  - rewrite (close_some _ _ Hw) in Hcl. injection Hcl as <-. cbn -[clear].
    repeat split.
    + intros h ->. apply clear_gone.
    + intros i. rewrite !elem_of_cons, elem_of_nil. intuition congruence.
  - rewrite (close_none _ Hw) in Hcl. injection Hcl as <-. cbn -[clear].
    repeat split.
    + intros h ->. apply clear_gone.
    + intros i. rewrite !elem_of_cons, elem_of_nil. intuition congruence.
    + rewrite Hw. reflexivity.
Qed.

(** *** Clicks inside the popup *)





(** Running events from a reachable world ends in a reachable world. *)
Lemma run_reachable es : forall w w',
  reachable w -> run es w = Ok tt w' -> reachable w'.
Proof.
  induction es as [|e es IH]; intros w w' Hr.
  - intros [= <-]. exact Hr.
  - rewrite run_cons. destruct (step e w) as [[] w1|] eqn:Hs; [|discriminate].
    apply IH. eapply reachable_step; eassumption.
Qed.

End PopupProofs.

(** *** The properties on the concrete page *)

#[local] Existing Instance FlagPopup.

Lemma page_open_reachable : reachable page_open.
Proof.
  apply (run_reachable [Call MOpen; Elapse 5; Timer 1]
           (init bool 4 page_config 2 page_document 10)).
  - apply reachable_init.
  - vm_compute. reflexivity.
Qed.

Lemma page_open_ref : _componentRef page_open = Some page_popup.
Proof. vm_compute. reflexivity. Qed.

Lemma page_reachable : reachable page.
Proof. exact (reachable_init 4 page_config 2 page_document 10). Qed.

Lemma open_close_never_creates_witness :
  reachable page /\
  exists w1 w2,
    run [Call MOpen; Elapse 3; Call MClose] page = Ok tt w1 /\
    timers w1 = [] /\
    run [Elapse 9; Timer 1; DocumentClick 1; CloseCompleted; Raw MouseEnter]
        w1 = Ok tt w2 /\
    creations (log w2) = creations (log page) /\
    callback_runs (log w2) = callback_runs (log page) /\
    (_componentRef page = None -> _componentRef w2 = None).
Proof.
  split; [exact page_reachable|].
  apply (open_close_never_creates page 3
           [Elapse 9; Timer 1; DocumentClick 1; CloseCompleted; Raw MouseEnter]).
  - exact page_reachable.
  - vm_compute. reflexivity.
Defined.

Lemma at_most_one_instance_witness :
  reachable page_open /\
  _componentRef page_open = Some page_popup /\
  length (views page_open) <= 1 /\
  open_callback page_open =
    Ok tt (logged (PopupOpen (ref_id page_popup))
            (set_componentRef
               (Some (with_instance (run_transition popup_open) page_popup))
               page_open)).
Proof.
  destruct (at_most_one_instance page_open page_open_reachable)
    as (_ & Hl & Hc).
  split; [exact page_open_reachable|]. split; [exact page_open_ref|].
  split; [exact Hl|].
  exact (proj1 (Hc page_popup page_open_ref)).
Defined.

Lemma close_completion_clears_witness :
  reachable page_open /\
  _componentRef page_open = Some page_popup /\
  onClose (instance page_popup) = [DestroyOnClose] /\
  exists w1,
    step CloseCompleted page_open = Ok tt w1 /\
    _componentRef w1 = None /\
    views w1 = [] /\
    log w1 = Destroyed (ref_id page_popup) :: log page_open /\
    forall dt, exists w2 c',
      run [Call MOpen; Elapse (delay (_popupConfig w1) + dt);
           Timer (next_timer w1)] w1 = Ok tt w2 /\
      _componentRef w2 = Some c' /\
      ref_id c' <> ref_id page_popup /\
      (ref_id c' ∉ creations (log w1)) /\
      views w2 = [ref_id c'] /\
      instance c' = created_popup w1.
Proof.
  split; [exact page_open_reachable|]. split; [exact page_open_ref|].
  exact (close_completion_clears page_open page_popup
           page_open_reachable page_open_ref).
Defined.

Lemma document_click_closes_witness :
  contains (document page_open) (_element page_open) 4 = true /\
  onDocumentClick 4 page_open = Ok tt page_open /\
  trigger (_popupConfig page_open) = OutsideClick /\
  closes_on_document_click page_open 3 = true /\
  onDocumentClick 3 page_open = close page_open.
Proof.
  assert (contains (document page_open) (_element page_open) 4 = true) as Hin
    by (vm_compute; reflexivity).
  assert (closes_on_document_click page_open 3 = true) as Hout
    by (vm_compute; reflexivity).
  destruct (document_click_closes page_open 4) as (_ & _ & Hstay & _).
  destruct (document_click_closes page_open 3) as (Heq & _).
  rewrite Hout in Heq.
  split; [exact Hin|]. split; [exact (Hstay Hin)|].
  split; [vm_compute; reflexivity|]. split; [exact Hout | exact Heq].
Defined.

Lemma toggle_delegates_witness :
  _componentRef page = None /\
  toggle page = open (logged (Called MToggle) page) /\
  ignoring_toggle (toggle page) = ignoring_toggle (open page) /\
  popup_isOpen (transition (instance page_popup)) = true /\
  toggle page_open = close (logged (Called MToggle) page_open) /\
  ignoring_toggle (toggle page_open) = ignoring_toggle (close page_open).
Proof.
  assert (_componentRef page = None) as Hn by (vm_compute; reflexivity).
  assert (popup_isOpen (transition (instance page_popup)) = true) as Ho
    by (vm_compute; reflexivity).
  destruct (proj1 (toggle_delegates page) (or_introl Hn)) as [H1 H2].
  destruct (proj2 (toggle_delegates page_open)
              (ex_intro _ page_popup (conj page_open_ref Ho))) as [H3 H4].
  split; [exact Hn|]. split; [exact H1|]. split; [exact H2|].
  split; [exact Ho|]. split; [exact H3 | exact H4].
Defined.

Lemma close_tolerated_witness :
  _componentRef page = None /\
  close page = Ok tt (cancelled (logged (Called MClose) page)) /\
  close page_open =
    Ok tt (logged (PopupClose (ref_id page_popup))
            (set_componentRef
               (Some (with_instance (run_transition popup_close) page_popup))
               (cancelled (logged (Called MClose) page_open)))).
Proof.
  assert (_componentRef page = None) as Hn by (vm_compute; reflexivity).
  split; [exact Hn|]. split.
  - exact (proj1 (close_tolerated page) Hn).
  - exact (proj1 (proj2 (close_tolerated page_open)) page_popup page_open_ref).
Defined.



(** ** Further properties of the popup lifecycle controller *)

Section PopupLifecycle.
Context {P : Type} `{PopupImpl P}.
Implicit Types (w : World P) (c : ComponentRef P).

(** *** Steps never throw *)






(** *** Every step is made of a few parts *)

Lemma inv_dropped h w : inv w -> inv (dropped h w).
Proof.
  intros [Ht Hv Hc Hr]. split; cbn -[clear]; try assumption.
  apply clear_sub, Ht.
Qed.

Lemma open_parts w : open w = Ok tt (armed (logged (Called MOpen) w)).
Proof. reflexivity. Qed.

Lemma close_parts w :
  close w =
    Ok tt (match _componentRef w with
           | Some c =>
               popup_called popup_close PopupClose c
                 (dropped (_openingTimeout w) (logged (Called MClose) w))
           | None => dropped (_openingTimeout w) (logged (Called MClose) w)
           end).
Proof.
  destruct (_componentRef w) as [c|] eqn:Hw.
  - rewrite (close_some _ _ Hw). reflexivity.
  - rewrite (close_none _ Hw). reflexivity.
Qed.

Lemma open_callback_parts w :
  open_callback w =
    Ok tt (match _componentRef w with
           | Some c => popup_called popup_open PopupOpen c w
           | None => born w
           end).
Proof.
  destruct (_componentRef w) as [c|] eqn:Hw.
  - rewrite (open_callback_some _ _ Hw). reflexivity.
  - rewrite (open_callback_none _ Hw). reflexivity.
Qed.

Section Parts.
Variable R : World P -> World P -> Prop.
Hypothesis R_refl : forall w, R w w.
Hypothesis R_trans : forall w1 w2 w3, R w1 w2 -> R w2 w3 -> R w1 w3.
Hypothesis R_logged : forall w m, inv w -> R w (logged (Called m) w).
Hypothesis R_armed : forall w, inv w -> R w (armed w).
Hypothesis R_dropped : forall w h, inv w -> R w (dropped h w).
Hypothesis R_called : forall w c f e,
  inv w -> _componentRef w = Some c -> e = PopupOpen \/ e = PopupClose ->
  R w (popup_called f e c w).
Hypothesis R_clock : forall w dt, inv w -> R w (set_clock (clock w + dt) w).
Hypothesis R_born : forall w, inv w -> _componentRef w = None -> R w (born w).
Hypothesis R_gone : forall w c,
  inv w -> _componentRef w = Some c -> R w (gone c w).

Lemma open_by_parts w w' : inv w -> open w = Ok tt w' -> R w w'.
Proof using All.
  intros Hi. rewrite open_parts. intros [= <-].
  eapply R_trans; [apply (R_logged w MOpen Hi)|].
  apply R_armed, inv_logged; [discriminate | exact Hi].
Qed.

Lemma close_by_parts w w' : inv w -> close w = Ok tt w' -> R w w'.
Proof using All.
  intros Hi. rewrite close_parts. intros [= <-].
  pose proof (inv_logged (Called MClose) w ltac:(discriminate) Hi) as Hl.
  pose proof (inv_dropped (_openingTimeout w) _ Hl) as Hd.
  eapply R_trans; [apply (R_logged w MClose Hi)|].
  eapply R_trans; [apply (R_dropped _ (_openingTimeout w) Hl)|].
  destruct (_componentRef w) as [c|] eqn:Hw.
  - apply R_called; [exact Hd | exact Hw | right; reflexivity].
  - apply R_refl.
Qed.

Lemma toggle_by_parts w w' : inv w -> toggle w = Ok tt w' -> R w w'.
Proof using All.
  intros Hi Ht.
  pose proof (inv_logged (Called MToggle) w ltac:(discriminate) Hi) as Hl.
  eapply R_trans; [apply (R_logged w MToggle Hi)|].
  destruct (_componentRef w) as [c|] eqn:Hw.
  - rewrite (toggle_some _ _ Hw) in Ht.
    destruct (popup_isOpen _);
      [apply close_by_parts | apply open_by_parts]; assumption.
  - rewrite (toggle_none _ Hw) in Ht. apply open_by_parts; assumption.
Qed.

Lemma step_by_parts e w w' : inv w -> step e w = Ok tt w' -> R w w'.
Proof using All.
  intros Hi. destruct e as [m|r|t|dt|h|]; cbn [step].
  - destruct m; cbn [invoke];
      [apply open_by_parts | apply close_by_parts | apply toggle_by_parts];
      exact Hi.
  - destruct r; cbn [handle];
      unfold onMouseEnter, onMouseLeave, onClick, onFocus, onFocusOut, bind,
        gets, ret;
      match goal with |- context [if ?b then _ else _] => destruct b end;
      first [ intros [= <-]; apply R_refl
            | apply open_by_parts, Hi | apply close_by_parts, Hi
            | apply toggle_by_parts, Hi ].
  - unfold onDocumentClick, bind, gets, ret.
    destruct (_componentRef w); [|intros [= <-]; apply R_refl].
    destruct (decide _); [|intros [= <-]; apply R_refl].
    destruct (negb _); [apply close_by_parts, Hi | intros [= <-]; apply R_refl].
  - unfold modify. intros [= <-]. apply R_clock, Hi.
  - rewrite fire_eq. destruct (due h w); [|intros [= <-]; apply R_refl].
    change (set_timers (clear (Some h) (timers w)) (next_timer w) w)
      with (dropped (Some h) w).
    pose proof (inv_dropped (Some h) w Hi) as Hd.
    pose proof (R_dropped w (Some h) Hi) as Rd.
    revert Hd Rd. generalize (dropped (Some h) w). intros v Hd Rd.
    rewrite open_callback_parts. intros [= <-].
    eapply R_trans; [exact Rd|].
    destruct (_componentRef v) as [c|] eqn:Hw.
    + apply R_called; [exact Hd | exact Hw | left; reflexivity].
    + apply R_born; [exact Hd | exact Hw].
  - destruct (_componentRef w) as [c|] eqn:Hw.
    + destruct (inv_ref _ Hi c Hw) as [_ Hs].
      rewrite (emit_onClose_eq _ _ Hw Hs). intros [= <-].
      apply R_gone; assumption.
    + rewrite (emit_onClose_none _ Hw). intros [= <-]. apply R_refl.
Qed.

End Parts.

(** A property that holds of a fresh directive and that every part of a
    step keeps holds in every reachable world. *)
Lemma reachable_by_parts (Q : World P -> Prop) :
  (forall el cfg bd doc fresh, Q (init P el cfg bd doc fresh)) ->
  (forall w m, inv w -> Q w -> Q (logged (Called m) w)) ->
  (forall w, inv w -> Q w -> Q (armed w)) ->
  (forall w h, inv w -> Q w -> Q (dropped h w)) ->
  (forall w c f e,
     inv w -> _componentRef w = Some c -> e = PopupOpen \/ e = PopupClose ->
     Q w -> Q (popup_called f e c w)) ->
  (forall w dt, inv w -> Q w -> Q (set_clock (clock w + dt) w)) ->
  (forall w, inv w -> _componentRef w = None -> Q w -> Q (born w)) ->
  (forall w c, inv w -> _componentRef w = Some c -> Q w -> Q (gone c w)) ->
  forall w, reachable w -> Q w.
Proof.
  intros Hinit Hl Ha Hd Hc Hk Hb Hg w Hr.
  induction Hr as [el cfg bd doc fresh | w e w' Hr IH Hs].
  - apply Hinit.
  - refine (step_by_parts (fun w w' => Q w -> Q w') _ _ _ _ _ _ _ _ _
              e w w' (reachable_inv _ Hr) Hs IH); intros; eauto.
Qed.

(** *** Invariants of the timers, of the log and of the popup *)

(** Property X2. In every reachable world at most one timer is pending and
    it is the one whose handle the directive stores; [open()] drops it and
    leaves exactly one timer, due a full delay from now, so calling
    [open()] again only restarts the delay. *)
Theorem one_pending_timer w :
  reachable w ->
  length (timers w) <= 1 /\
  Forall (fun t => _openingTimeout w = Some t.1) (timers w) /\
  exists w', open w = Ok tt w' /\
    timers w' = [(next_timer w, clock w + delay (_popupConfig w))] /\
    _openingTimeout w' = Some (next_timer w).
Proof.
  intros Hr. pose proof (reachable_inv _ Hr) as Hi. split; [|split].
  - clear Hi. revert w Hr. apply reachable_by_parts.
    + intros. cbn. lia.
    + intros w m _ Hq. exact Hq.
    + intros w Hi _. cbn -[clear].
      rewrite (clear_owned _ _ (inv_timers _ Hi)). cbn. lia.
    + intros w h _ Hq. cbn -[clear]. destruct h as [i|]; cbn; [|exact Hq].
      etransitivity; [apply length_filter | exact Hq].
    + intros w c f e _ _ _ Hq. exact Hq.
    + intros w dt _ Hq. exact Hq.
    + intros w _ _ Hq. exact Hq.
    + intros w c _ _ Hq. exact Hq.
  - apply Hi.
  - rewrite open_eq. eexists. split; [reflexivity|]. cbn -[clear].
    rewrite (clear_owned _ _ (inv_timers _ Hi)). split; reflexivity.
Qed.

(** Property X3. In every reachable world the log follows the protocol of
    a single popup: a component is created only when none is alive, the
    popup's [open()] and [close()] are only ever called on the component
    that is alive, only that one is destroyed, and the component alive at
    the end is the one the directive refers to. *)
Theorem log_follows_protocol w :
  reachable w ->
  protocol (log w) = Some (ref_id <$> _componentRef w).
Proof.
  revert w. apply reachable_by_parts.
  - reflexivity.
  - intros w m _ Hq. cbn. rewrite Hq. reflexivity.
  - intros w _ Hq. exact Hq.
  - intros w h _ Hq. exact Hq.
  - intros w c f e _ Hw He Hq. cbn. rewrite Hq, Hw. cbn.
    destruct He as [-> | ->]; cbn; rewrite decide_True by reflexivity;
      reflexivity.
  - intros w dt _ Hq. exact Hq.
  - intros w _ Hw Hq. cbn. rewrite Hq, Hw. cbn.
    rewrite decide_True by reflexivity. reflexivity.
  - intros w c _ Hw Hq. cbn. rewrite Hq, Hw. cbn.
    rewrite decide_True by reflexivity. reflexivity.
Qed.

Lemma step_frame e w w' :
  inv w -> step e w = Ok tt w' ->
  _popupConfig w' = _popupConfig w /\ _element w' = _element w /\
  body w' = body w.
Proof.
  apply (step_by_parts
           (fun w w' => _popupConfig w' = _popupConfig w /\
                        _element w' = _element w /\ body w' = body w));
    try (intros; cbn; auto; fail).
  intros w1 w2 w3 (A1 & B1 & C1) (A2 & B2 & C2).
  repeat split; congruence.
Qed.

Lemma run_frame es : forall w w',
  inv w -> run es w = Ok tt w' ->
  _popupConfig w' = _popupConfig w /\ _element w' = _element w /\
  body w' = body w.
Proof.
  induction es as [|e es IH]; intros w w' Hi.
  - intros [= <-]. auto.
  - rewrite run_cons. destruct (step e w) as [[] w1|] eqn:Hs; [|discriminate].
    intros Hrun.
    destruct (step_frame _ _ _ Hi Hs) as (A1 & B1 & C1).
    destruct (IH w1 w' (inv_step _ _ _ Hi Hs) Hrun) as (A2 & B2 & C2).
    repeat split; congruence.
Qed.

(** Property X4. The directive never changes its configuration, its anchor
    element or the body it attaches popups to; and in every reachable
    world the popup instance it holds is configured with that
    configuration, anchored to that element, and its host element is a
    child of that body. *)
Theorem popup_stays_wired w :
  reachable w ->
  (forall es w', run es w = Ok tt w' ->
     _popupConfig w' = _popupConfig w /\ _element w' = _element w /\
     body w' = body w) /\
  (forall c, _componentRef w = Some c ->
     config (instance c) = Some (_popupConfig w) /\
     anchor (instance c) = Some (_element w) /\
     document w !! location c = Some (body w)).
Proof.
  intros Hr. split.
  - intros es w'. apply run_frame, reachable_inv, Hr.
  - revert w Hr.
    apply (reachable_by_parts
             (fun w => forall c, _componentRef w = Some c ->
                config (instance c) = Some (_popupConfig w) /\
                anchor (instance c) = Some (_element w) /\
                document w !! location c = Some (body w))).
    + intros el cfg bd doc fresh c. cbn. discriminate.
    + intros w m _ Hq. exact Hq.
    + intros w _ Hq. exact Hq.
    + intros w h _ Hq. exact Hq.
    + intros w c f e _ Hw _ Hq c' [= <-]. cbn. apply Hq, Hw.
    + intros w dt _ Hq. exact Hq.
    + intros w _ _ _ c' [= <-]. cbn.
      split; [reflexivity|]. split; [reflexivity | apply lookup_insert_eq].
    + intros w c _ _ _ c'. cbn. discriminate.
Qed.

(** *** Waiting for the delay *)

Lemma not_due b h w :
  Forall (fun t => b < t.2) (timers w) -> clock w <= b -> due h w = false.
Proof.
  intros Hl Hc. unfold due. apply bool_decide_eq_false.
  rewrite Exists_exists. intros (t & Hin & _ & Hd).
  rewrite Forall_forall in Hl. specialize (Hl t Hin). lia.
Qed.

Lemma close_waits b w :
  Forall (fun t => b < t.2) (timers w) ->
  exists w', close w = Ok tt w' /\
    clock w' = clock w /\
    Forall (fun t => b < t.2) (timers w') /\
    _popupConfig w' = _popupConfig w /\
    creations (log w') = creations (log w) /\
    callback_runs (log w') = callback_runs (log w) /\
    (_componentRef w = None -> _componentRef w' = None).
Proof.
  intros Hl. rewrite close_parts. eexists. split; [reflexivity|].
  destruct (_componentRef w) as [c|] eqn:Hw; cbn -[clear];
    repeat split; auto using clear_sub; discriminate.
Qed.

Lemma wait_step b e w :
  inv w -> requests_open (_popupConfig w) e = false ->
  clock w + elapse_of e <= b ->
  Forall (fun t => b < t.2) (timers w) ->
  exists w', step e w = Ok tt w' /\
    clock w' = clock w + elapse_of e /\
    Forall (fun t => b < t.2) (timers w') /\
    _popupConfig w' = _popupConfig w /\
    creations (log w') = creations (log w) /\
    callback_runs (log w') = callback_runs (log w) /\
    (_componentRef w = None -> _componentRef w' = None).
Proof.
  intros Hi Hq Hb Hl.
  assert (exists w', Ok tt w = Ok tt w' /\
            clock w' = clock w + 0 /\
            Forall (fun t => b < t.2) (timers w') /\
            _popupConfig w' = _popupConfig w /\
            creations (log w') = creations (log w) /\
            callback_runs (log w') = callback_runs (log w) /\
            (_componentRef w = None -> _componentRef w' = None)) as Hsame.
  { exists w. repeat split; auto. }
  assert (exists w', close w = Ok tt w' /\
            clock w' = clock w + 0 /\
            Forall (fun t => b < t.2) (timers w') /\
            _popupConfig w' = _popupConfig w /\
            creations (log w') = creations (log w) /\
            callback_runs (log w') = callback_runs (log w) /\
            (_componentRef w = None -> _componentRef w' = None)) as Hclose.
  { rewrite Nat.add_0_r. apply close_waits, Hl. }
  destruct e as [m|r|t|dt|h|]; cbn [step handle invoke requests_open elapse_of] in *.
  - destruct m; try discriminate. exact Hclose.
  - destruct r; cbn [step handle invoke requests_open elapse_of] in *;
      unfold onMouseEnter, onMouseLeave, onClick, onFocus, onFocusOut, bind,
        gets, ret.
    + rewrite decide_bool_decide, Hq. exact Hsame.
    + destruct (decide _); [exact Hclose | exact Hsame].
    + rewrite Hq. exact Hsame.
    + rewrite decide_bool_decide, Hq. exact Hsame.
    + destruct (decide _); [exact Hclose | exact Hsame].
  - unfold onDocumentClick, bind, gets, ret.
    destruct (_componentRef w); [|exact Hsame].
    destruct (decide _); [|exact Hsame].
    destruct (negb _); [exact Hclose | exact Hsame].
  - unfold modify. eexists. split; [reflexivity|]. cbn. repeat split; auto.
  - rewrite fire_eq, (not_due b h w Hl) by lia. exact Hsame.
  - destruct (_componentRef w) as [c|] eqn:Hw.
    + destruct (inv_ref _ Hi c Hw) as [_ Hs].
      rewrite (emit_onClose_eq _ _ Hw Hs). eexists. split; [reflexivity|].
      cbn. repeat split; auto.
    + rewrite (emit_onClose_none _ Hw). exact Hsame.
Qed.

Lemma wait_run b es : forall w,
  inv w ->
  forallb (fun e => negb (requests_open (_popupConfig w) e)) es = true ->
  clock w + elapsed es <= b ->
  Forall (fun t => b < t.2) (timers w) ->
  exists w', run es w = Ok tt w' /\
    creations (log w') = creations (log w) /\
    callback_runs (log w') = callback_runs (log w) /\
    (_componentRef w = None -> _componentRef w' = None).
Proof.
  induction es as [|e es IH]; intros w Hi Hq Hb Hl.
  - exists w. repeat split; auto.
  - cbn in Hq. apply andb_true_iff in Hq as [He Hes].
    apply negb_true_iff in He.
    change (elapsed (e :: es)) with (elapse_of e + elapsed es) in Hb.
    destruct (wait_step b e w Hi He ltac:(lia) Hl)
      as (w1 & Hs & Hc1 & Hl1 & Hcfg & Hk1 & Hb1 & Ha1).
    rewrite run_cons, Hs.
    destruct (IH w1) as (w2 & Hr & Hk2 & Hb2 & Ha2).
    + eapply inv_step; eassumption.
    + rewrite Hcfg. exact Hes.
    + lia.
    + exact Hl1.
    + exists w2. split; [exact Hr|].
      split; [congruence|]. split; [congruence | auto].
Qed.

(** Property X5. After [open()] in a reachable world, as long as less
    time than the configured delay has passed and nothing requests an
    opening again, the timer callback does not run and no popup is
    created, whichever timers are tried in between. *)
Theorem not_before_the_delay w es :
  reachable w ->
  forallb (fun e => negb (requests_open (_popupConfig w) e)) es = true ->
  elapsed es < delay (_popupConfig w) ->
  exists w1 w2,
    open w = Ok tt w1 /\
    run es w1 = Ok tt w2 /\
    creations (log w2) = creations (log w) /\
    callback_runs (log w2) = callback_runs (log w) /\
    (_componentRef w = None -> _componentRef w2 = None).
Proof.
  intros Hr Hq He. pose proof (reachable_inv _ Hr) as Hi.
  rewrite open_eq. eexists.
  match goal with |- context [Ok tt ?x = _] => set (w1 := x) end.
  assert (inv w1) as Hi1 by (eapply inv_open; [exact Hi | apply open_eq]).
  destruct (wait_run (clock w + elapsed es) es w1 Hi1) as (w2 & Hrun & Hk & Hb & Ha).
  - exact Hq.
  - cbn. lia.
  - subst w1. cbn -[clear]. rewrite (clear_owned _ _ (inv_timers _ Hi)).
    constructor; [cbn; lia | constructor].
  - exists w2. split; [reflexivity|]. split; [exact Hrun|].
    split; [exact Hk|]. split; [exact Hb | exact Ha].
Qed.

(** *** Whole life cycles *)

Lemma due_head h d ts w :
  d <= clock w -> timers w = (h, d) :: ts -> due h w = true.
Proof.
  intros Hd Ht. unfold due. apply bool_decide_eq_true. rewrite Ht.
  apply Exists_cons_hd. cbn. split; [reflexivity | exact Hd].
Qed.

(** Property X6. From a reachable world without a popup, [open()], then
    at least the configured delay, then the timer: the popup exists, it is
    the newly created component with a fresh instance on which [open()]
    was called once, it sits under the body, and no timer is left. *)
Theorem opens_after_the_delay w dt :
  reachable w -> _componentRef w = None ->
  delay (_popupConfig w) <= dt ->
  exists w',
    run [Call MOpen; Elapse dt; Timer (next_timer w)] w = Ok tt w' /\
    _componentRef w' = Some (created_ref w) /\
    timers w' = [] /\
    views w' = [next_ref w] /\
    document w' !! next_node w = Some (body w) /\
    log w' =
      PopupOpen (next_ref w) :: Created (next_ref w) :: Called MOpen :: log w.
Proof.
  intros Hr Hw Hd. pose proof (reachable_inv _ Hr) as Hi.
  rewrite run_cons. cbn [step invoke]. rewrite open_eq.
  rewrite run_cons. cbn [step]. unfold modify at 1.
  rewrite run_cons. cbn [step run]. rewrite fire_eq.
  rewrite (clear_owned _ _ (inv_timers _ Hi)).
  erewrite (due_head (next_timer w)); [| |reflexivity]; [|cbn; lia].
  rewrite open_callback_none by exact Hw. unfold bind, ret.
  eexists. split; [reflexivity|]. cbn.
  rewrite decide_False by tauto. rewrite (inv_views _ Hi), Hw.
  repeat split. apply lookup_insert_eq.
Qed.

Lemma onFocus_focus w :
  trigger (_popupConfig w) = Focus -> onFocus w = open w.
Proof.
  intros Hf. unfold onFocus, bind, gets. cbv beta iota.
  rewrite decide_True by exact Hf. reflexivity.
Qed.

Lemma onFocusOut_focus w :
  trigger (_popupConfig w) = Focus -> onFocusOut w = close w.
Proof.
  intros Hf. unfold onFocusOut, bind, gets. cbv beta iota.
  rewrite decide_True by exact Hf. reflexivity.
Qed.

(** Property X7. Under the [Focus] mode, from a reachable world without a
    popup: focus, the delay, the timer, focus-out and the completion of
    the closing leave the directive without a popup and without a timer,
    the container without a view and the document exactly as it was
    before (the host element's node being new to it); what happened in
    between is one creation, one [open()] and one [close()] of the popup
    and one destruction. *)
Theorem focus_life_cycle w dt :
  reachable w -> _componentRef w = None ->
  trigger (_popupConfig w) = Focus ->
  document w !! next_node w = None ->
  delay (_popupConfig w) <= dt ->
  exists w',
    run [Raw FocusIn; Elapse dt; Timer (next_timer w); Raw FocusOut;
         CloseCompleted] w = Ok tt w' /\
    _componentRef w' = None /\
    timers w' = [] /\
    views w' = [] /\
    document w' = document w /\
    log w' =
      [Destroyed (next_ref w); PopupClose (next_ref w); Called MClose;
       PopupOpen (next_ref w); Created (next_ref w); Called MOpen] ++ log w.
Proof.
  intros Hr Hw Hf Hn Hd. pose proof (reachable_inv _ Hr) as Hi.
  rewrite run_cons. cbn [step handle]. rewrite (onFocus_focus _ Hf), open_eq.
  rewrite run_cons. cbn [step]. unfold modify at 1.
  rewrite run_cons. cbn [step]. rewrite fire_eq.
  rewrite (clear_owned _ _ (inv_timers _ Hi)).
  erewrite (due_head (next_timer w)); [| |reflexivity]; [|cbn; lia].
  rewrite open_callback_none by exact Hw.
  rewrite run_cons. cbn [step handle]. rewrite onFocusOut_focus by exact Hf.
  erewrite close_some by reflexivity.
  rewrite run_cons. cbn [step run].
  erewrite emit_onClose_eq by reflexivity.
  unfold bind, ret. eexists. split; [reflexivity|]. cbn.
  rewrite (inv_views _ Hi), Hw. cbn.
  repeat match goal with
         | |- context [decide (?x <> ?x)] =>
             destruct (decide (x <> x)) as [Hne|_];
             [exfalso; apply Hne; reflexivity|]
         end.
  repeat split.
  rewrite delete_insert_eq. unfold place_beside.
  destruct (document w !! _element w).
  - rewrite delete_insert_eq. apply delete_id, Hn.
  - apply delete_id, Hn.
Qed.

(** Property X8. A second [toggle()] before the popup exists does not
    cancel the opening that the first one requested: with no popup yet,
    both delegate to [open()], [close()] is not called, and the one
    pending timer is that of the second call, due a full delay after
    it. *)
Theorem toggle_twice_still_opens w dt :
  reachable w -> _componentRef w = None ->
  exists w',
    run [Call MToggle; Elapse dt; Call MToggle] w = Ok tt w' /\
    _componentRef w' = None /\
    timers w' =
      [(S (next_timer w), clock w + dt + delay (_popupConfig w))] /\
    _openingTimeout w' = Some (S (next_timer w)) /\
    log w' =
      [Called MOpen; Called MToggle; Called MOpen; Called MToggle] ++ log w.
Proof.
  intros Hr Hw. pose proof (reachable_inv _ Hr) as Hi.
  rewrite run_cons. cbn [step invoke]. rewrite (toggle_none _ Hw), open_eq.
  rewrite run_cons. cbn [step]. unfold modify at 1.
  rewrite run_cons. cbn [step invoke run].
  rewrite toggle_none by exact Hw. rewrite open_eq. unfold bind, ret.
  eexists. split; [reflexivity|]. cbn.
  rewrite (clear_owned _ _ (inv_timers _ Hi)). cbn.
  rewrite decide_False by tauto. repeat split; exact Hw.
Qed.

(** Property X9. Events that mean nothing under the configured mode, raw
    events outside the mode's columns and document clicks under every
    mode but [OutsideClick], leave the world exactly as it was, however
    many there are; under [Manual] that is every raw event and every
    document click. *)
Theorem ignored_events_change_nothing es : forall w,
  forallb (ignored (_popupConfig w)) es = true ->
  run es w = Ok tt w /\
  (trigger (_popupConfig w) = Manual ->
   forall e, ignored (_popupConfig w) (Raw e) = true /\
             forall t, ignored (_popupConfig w) (DocumentClick t) = true).
Proof.
  intros w Hall. split.
  - induction es as [|e es IH]; [reflexivity|].
    cbn in Hall. apply andb_true_iff in Hall as [He Hes].
    rewrite run_cons.
    assert (step e w = Ok tt w) as ->; [|exact (IH Hes)].
    destruct e as [m|r|t|dt|h|]; try discriminate; cbn [step ignored] in *.
    + apply bool_decide_eq_true in He.
      destruct r; cbn [handle];
        unfold onMouseEnter, onMouseLeave, onClick, onFocus, onFocusOut, bind,
          gets, ret;
        destruct (trigger (_popupConfig w)); try discriminate; reflexivity.
    + apply bool_decide_eq_true in He.
      unfold onDocumentClick, bind, gets, ret.
      destruct (_componentRef w); [|reflexivity].
      rewrite decide_False by exact He. reflexivity.
  - intros Hm e. cbn. rewrite Hm. split.
    + destruct e; reflexivity.
    + intros _. reflexivity.
Qed.

End PopupLifecycle.

(** *** The further properties on the concrete pages *)

Lemma focus_page_reachable : reachable focus_page.
Proof. exact (reachable_init 4 focus_config 2 page_document 10). Qed.

Lemma one_pending_timer_witness :
  reachable page_open /\
  length (timers page_open) <= 1 /\
  exists w', open page_open = Ok tt w' /\
    timers w' =
      [(next_timer page_open,
        clock page_open + delay (_popupConfig page_open))] /\
    _openingTimeout w' = Some (next_timer page_open).
Proof.
  destruct (one_pending_timer page_open page_open_reachable) as (Hl & _ & Ho).
  split; [exact page_open_reachable|]. split; [exact Hl | exact Ho].
Defined.

Lemma log_follows_protocol_witness :
  reachable page_open /\
  protocol (log page_open) = Some (ref_id <$> _componentRef page_open).
Proof.
  split; [exact page_open_reachable|].
  exact (log_follows_protocol page_open page_open_reachable).
Defined.

Lemma popup_stays_wired_witness :
  reachable page_open /\
  _componentRef page_open = Some page_popup /\
  config (instance page_popup) = Some (_popupConfig page_open) /\
  anchor (instance page_popup) = Some (_element page_open) /\
  document page_open !! location page_popup = Some (body page_open).
Proof.
  split; [exact page_open_reachable|]. split; [exact page_open_ref|].
  exact (proj2 (popup_stays_wired page_open page_open_reachable)
           page_popup page_open_ref).
Defined.

Lemma not_before_the_delay_witness :
  reachable page /\
  elapsed [Elapse 2; Timer 1; Elapse 2; Timer 1; DocumentClick 3]
    < delay (_popupConfig page) /\
  exists w1 w2,
    open page = Ok tt w1 /\
    run [Elapse 2; Timer 1; Elapse 2; Timer 1; DocumentClick 3] w1
      = Ok tt w2 /\
    creations (log w2) = creations (log page) /\
    callback_runs (log w2) = callback_runs (log page) /\
    (_componentRef page = None -> _componentRef w2 = None).
Proof.
  assert (elapsed [Elapse 2; Timer 1; Elapse 2; Timer 1; DocumentClick 3]
            < delay (_popupConfig page)) as He by (vm_compute; lia).
  split; [exact page_reachable|]. split; [exact He|].
  apply (not_before_the_delay page
           [Elapse 2; Timer 1; Elapse 2; Timer 1; DocumentClick 3]).
  - exact page_reachable.
  - vm_compute. reflexivity.
  - exact He.
Defined.

Lemma opens_after_the_delay_witness :
  reachable page /\ _componentRef page = None /\
  delay (_popupConfig page) <= 5 /\
  exists w',
    run [Call MOpen; Elapse 5; Timer (next_timer page)] page = Ok tt w' /\
    _componentRef w' = Some (created_ref page) /\
    timers w' = [] /\
    views w' = [next_ref page] /\
    document w' !! next_node page = Some (body page) /\
    log w' =
      PopupOpen (next_ref page) :: Created (next_ref page)
        :: Called MOpen :: log page.
Proof.
  assert (_componentRef page = None) as Hn by (vm_compute; reflexivity).
  assert (delay (_popupConfig page) <= 5) as Hd by (vm_compute; lia).
  split; [exact page_reachable|]. split; [exact Hn|]. split; [exact Hd|].
  exact (opens_after_the_delay page 5 page_reachable Hn Hd).
Defined.

Lemma focus_life_cycle_witness :
  reachable focus_page /\ _componentRef focus_page = None /\
  trigger (_popupConfig focus_page) = Focus /\
  document focus_page !! next_node focus_page = None /\
  delay (_popupConfig focus_page) <= 0 /\
  exists w',
    run [Raw FocusIn; Elapse 0; Timer (next_timer focus_page); Raw FocusOut;
         CloseCompleted] focus_page = Ok tt w' /\
    _componentRef w' = None /\
    timers w' = [] /\
    views w' = [] /\
    document w' = document focus_page /\
    log w' =
      [Destroyed (next_ref focus_page); PopupClose (next_ref focus_page);
       Called MClose; PopupOpen (next_ref focus_page);
       Created (next_ref focus_page); Called MOpen] ++ log focus_page.
Proof.
  assert (_componentRef focus_page = None) as Hn by (vm_compute; reflexivity).
  assert (trigger (_popupConfig focus_page) = Focus) as Hf
    by (vm_compute; reflexivity).
  assert (document focus_page !! next_node focus_page = None) as Hd
    by (vm_compute; reflexivity).
  assert (delay (_popupConfig focus_page) <= 0) as Hl by (vm_compute; lia).
  split; [exact focus_page_reachable|]. split; [exact Hn|].
  split; [exact Hf|]. split; [exact Hd|]. split; [exact Hl|].
  exact (focus_life_cycle focus_page 0 focus_page_reachable Hn Hf Hd Hl).
Defined.

Lemma toggle_twice_still_opens_witness :
  reachable page /\ _componentRef page = None /\
  exists w',
    run [Call MToggle; Elapse 1; Call MToggle] page = Ok tt w' /\
    _componentRef w' = None /\
    timers w' =
      [(S (next_timer page), clock page + 1 + delay (_popupConfig page))] /\
    _openingTimeout w' = Some (S (next_timer page)) /\
    log w' =
      [Called MOpen; Called MToggle; Called MOpen; Called MToggle]
        ++ log page.
Proof.
  assert (_componentRef page = None) as Hn by (vm_compute; reflexivity).
  split; [exact page_reachable|]. split; [exact Hn|].
  exact (toggle_twice_still_opens page 1 page_reachable Hn).
Defined.

Lemma ignored_events_change_nothing_witness :
  forallb (ignored (_popupConfig manual_page))
    [Raw MouseEnter; Raw AnchorClick; DocumentClick 3; Raw FocusIn] = true /\
  run [Raw MouseEnter; Raw AnchorClick; DocumentClick 3; Raw FocusIn]
    manual_page = Ok tt manual_page.
Proof.
  assert (forallb (ignored (_popupConfig manual_page))
            [Raw MouseEnter; Raw AnchorClick; DocumentClick 3; Raw FocusIn]
          = true) as Hi by (vm_compute; reflexivity).
  split; [exact Hi|].
  exact (proj1 (ignored_events_change_nothing
                  [Raw MouseEnter; Raw AnchorClick; DocumentClick 3;
                   Raw FocusIn] manual_page Hi)).
Defined.

End PopupTheory.

(** ** Properties of the datepicker directive *)
Module DatepickerTheory.
Import Datepicker.

Section DatepickerProofs.
Context {D : Type} `{DatepickerMode}.

(** Claim C7, as the code has it. When the five members of the enumeration
    are distinct and [undefined] is none of them, each member selects the
    configuration class of its name, and every other value, absent or
    not, selects [DateConfig]. The stored mode is left as it was by a
    falsy value ([undefined] among them) and becomes the value passed when
    that is truthy, whether it is a member or not. *)
Theorem set_mode_selects (v : JsValue) (d : Directive D) :
  NoDup members ->
  VUndefined ∉ members ->
  config (set_mode Year d) = Some YearConfig /\
  config (set_mode Month d) = Some MonthConfig /\
  config (set_mode Date d) = Some DateConfig /\
  config (set_mode Datetime d) = Some DatetimeConfig /\
  config (set_mode Time d) = Some TimeConfig /\
  (v ∉ members -> config (set_mode v d) = Some DateConfig) /\
  config (set_mode VUndefined d) = Some DateConfig /\
  mode (set_mode VUndefined d) = mode d /\
  (truthy v = false -> mode (set_mode v d) = mode d) /\
  (truthy v = true -> mode (set_mode v d) = v).
Proof.
  intros Hnd Hu. unfold members in *.
  repeat match type of Hnd with
         | NoDup (_ :: _) => apply NoDup_cons in Hnd as [?%not_elem_of_cons Hnd]
         end.
  repeat match goal with
         | H : _ /\ _ |- _ => destruct H
         | H : _ ∉ _ :: _ |- _ => apply not_elem_of_cons in H
         end.
  unfold mode, set_mode; cbn.
  repeat split.
  - rewrite decide_True by reflexivity. reflexivity.
  - repeat (first [rewrite decide_True by reflexivity
                  | rewrite decide_False by congruence]). reflexivity.
  - repeat (first [rewrite decide_True by reflexivity
                  | rewrite decide_False by congruence]). reflexivity.
  - repeat (first [rewrite decide_True by reflexivity
                  | rewrite decide_False by congruence]). reflexivity.
  - repeat (first [rewrite decide_True by reflexivity
                  | rewrite decide_False by congruence]). reflexivity.
  - intros Hv. rewrite !not_elem_of_cons in Hv.
    destruct Hv as (? & ? & ? & ? & ? & _).
    rewrite !decide_False by assumption. reflexivity.
  - rewrite !decide_False by assumption. reflexivity.
  - intros ->. reflexivity.
  - intros ->. reflexivity.
Qed.

(** Claim C8. After [writeValue(value)] the getter [selectedDate] returns
    [value], exactly one change notification was emitted, carrying
    [value], and a live picker instance has [value] as its
    [selectedDate]; nothing else about the instance changes and none
    appears. *)
Theorem writeValue_sets (value : option D) (d : Directive D) :
  selectedDate (writeValue value d) = value /\
  onDateChange (writeValue value d) = value :: onDateChange d /\
  componentInstance (writeValue value d) =
    (SuiDatepicker.assign_selectedDate value <$> componentInstance d) /\
  (forall c, componentInstance (writeValue value d) = Some c ->
             SuiDatepicker.selectedDate c = value).
Proof.
  unfold writeValue, selectedDate.
  destruct d as [sd md cf mx mn fd od [c|]]; cbn;
    (split; [reflexivity|]); (split; [reflexivity|]); (split; [reflexivity|]).
  - intros c' [= <-]. reflexivity.
  - intros c' [=].
Qed.

End DatepickerProofs.

(** *** The properties on concrete directives *)

#[local] Existing Instance StringModes.

Lemma string_modes_distinct : NoDup members.
Proof.
  unfold members. cbn.
  repeat (apply NoDup_cons; split;
          [rewrite ?not_elem_of_cons, elem_of_nil; intuition discriminate|]).
  apply NoDup_nil_2.
Qed.

Lemma string_modes_defined : VUndefined ∉ members.
Proof.
  unfold members. cbn.
  rewrite ?not_elem_of_cons, elem_of_nil. intuition discriminate.
Qed.

(** The claim C7 as the specification words it fails: a value that is no
    member of the enumeration, here the string "week", is stored as the
    mode although it is not recognised. *)
Lemma unrecognized_mode_is_stored :
  (VString "week" ∉ members) /\
  mode blank = VUndefined /\
  mode (set_mode (VString "week") blank) = VString "week" /\
  ~ (forall (v : JsValue) (d : Directive Z),
       v ∉ members ->
       mode (set_mode v d) = mode d /\ config (set_mode v d) = Some DateConfig).
Proof.
  assert (VString "week" ∉ members) as Hw.
  { unfold members. cbn.
    rewrite ?not_elem_of_cons, elem_of_nil. intuition discriminate. }
  split; [exact Hw|]. split; [reflexivity|]. split; [reflexivity|].
  intros Hall. destruct (Hall (VString "week") blank Hw) as [Hm _].
  discriminate Hm.
Qed.

Lemma set_mode_selects_witness :
  config (set_mode Time blank) = Some TimeConfig /\
  config (set_mode (VString "week") showing) = Some DateConfig /\
  mode (set_mode VUndefined showing) = VString "date" /\
  mode (set_mode (VString "week") showing) = VString "week".
Proof.
  destruct (set_mode_selects (VString "week") showing
              string_modes_distinct string_modes_defined)
    as (_ & _ & _ & _ & _ & Hd & _ & Hu & _ & Ht).
  destruct (set_mode_selects VUndefined blank
              string_modes_distinct string_modes_defined)
    as (_ & _ & _ & _ & Htime & _).
  split; [exact Htime|]. split.
  - apply Hd. unfold members. cbn.
    rewrite ?not_elem_of_cons, elem_of_nil. intuition discriminate.
  - split; [exact Hu | apply Ht; reflexivity].
Defined.

Lemma writeValue_sets_witness :
  selectedDate (writeValue (Some 9%Z) showing) = Some 9%Z /\
  onDateChange (writeValue (Some 9%Z) showing) = [Some 9%Z; Some 7%Z] /\
  (SuiDatepicker.selectedDate <$> componentInstance (writeValue (Some 9%Z) showing))
    = Some (Some 9%Z).
Proof.
  destruct (writeValue_sets (Some 9%Z) showing) as (Hs & He & Hc & Hi).
  split; [exact Hs|]. split; [exact He|].
  rewrite Hc. reflexivity.
Defined.

(** ** Further properties of the datepicker directive *)

Section DatepickerHost.
Context {D : Type} `{DatepickerMode}.

(** Property X10. Every call of [writeValue] emits one change
    notification, also when the value is the one already selected: after
    any number of calls the notifications are the values written, newest
    first, before the earlier ones; the selected date and the date of a
    live picker are the last value written. *)
Theorem writeValues_notify_each (vs : list (option D)) : forall (d : Directive D),
  onDateChange (writeValues vs d) = rev vs ++ onDateChange d /\
  selectedDate (writeValues vs d) = default (selectedDate d) (last vs) /\
  componentInstance (writeValues vs d) =
    match last vs with
    | Some v => SuiDatepicker.assign_selectedDate v <$> componentInstance d
    | None => componentInstance d
    end.
Proof.
  induction vs as [|v vs IH]; intros d; [repeat split|].
  change (writeValues (v :: vs) d) with (writeValues vs (writeValue v d)).
  destruct (IH (writeValue v d)) as (He & Hs & Hc).
  destruct d as [sd md cf mx mn fd od ci].
  rewrite He, Hs, Hc. clear IH He Hs Hc.
  split; [|split].
  - cbn [rev]. rewrite <- app_assoc. unfold writeValue. cbn.
    destruct ci; reflexivity.
  - destruct vs as [|v' vs].
    + unfold writeValue, selectedDate. cbn. destruct ci; reflexivity.
    + rewrite last_cons_cons. destruct (last (v' :: vs)) as [u|] eqn:Hl.
      * reflexivity.
      * apply last_None in Hl. discriminate.
  - destruct vs as [|v' vs].
    + unfold writeValue. cbn. destruct ci; reflexivity.
    + rewrite last_cons_cons. destruct (last (v' :: vs)) as [u|] eqn:Hl.
      * unfold writeValue. cbn. destruct ci as [[]|]; reflexivity.
      * apply last_None in Hl. discriminate.
Qed.

(** Property X11. A truthy value leaves the stored mode and the
    configuration in agreement: the configuration is the one the setter
    selects for the stored mode. A falsy value after it breaks the
    agreement when the earlier mode selected another class than
    [DateConfig]: the getter still returns the earlier mode while the
    configuration is [DateConfig]. *)
Theorem mode_and_config_disagree (m v : JsValue) (d : Directive D) :
  truthy m = true ->
  truthy v = false ->
  config_for v = DateConfig ->
  config_for m <> DateConfig ->
  config (set_mode m d) = Some (config_for (mode (set_mode m d))) /\
  mode (set_mode v (set_mode m d)) = m /\
  config (set_mode v (set_mode m d)) = Some DateConfig /\
  config (set_mode v (set_mode m d))
    <> Some (config_for (mode (set_mode v (set_mode m d)))).
Proof.
  intros Hm Hv Hcv Hcm.
  assert (forall x (d0 : Directive D),
            config (set_mode x d0) = Some (config_for x)) as Ec
    by reflexivity.
  assert (forall x (d0 : Directive D),
            mode (set_mode x d0) = if truthy x then x else mode d0) as Em
    by reflexivity.
  rewrite !Ec, !Em, Hm, Hv, Hcv. repeat split. congruence.
Qed.

(** Property X12. Setting the mode while a picker instance is live does
    not reach the instance: it keeps the configuration it had. The next
    [popupOnOpen] assigns to the instance the directive's configuration
    (the one the new mode selects), selected date, maximum date, minimum
    date and first day of the week, resets its service once and adds one
    subscriber; every field of the directive itself stays as the mode
    setter left it and no change notification is emitted. Without an
    instance [popupOnOpen] does nothing. *)
Theorem popupOnOpen_synchronises (v : JsValue) (h : Host D) (c : SuiDatepicker.t D) :
  componentInstance (directive h) = Some c ->
  componentInstance (directive (on_directive (set_mode v) h)) = Some c /\
  (let h2 := popupOnOpen (on_directive (set_mode v) h) in
   (exists c2, componentInstance (directive h2) = Some c2 /\
      SuiDatepicker.config c2 = Some (config_for v) /\
      SuiDatepicker.selectedDate c2 = selectedDate (directive h) /\
      SuiDatepicker.maxDate c2 = maxDate (directive h) /\
      SuiDatepicker.minDate c2 = minDate (directive h) /\
      SuiDatepicker.firstDayOfWeek c2 = firstDayOfWeek (directive h)) /\
   selectedDate (directive h2) = selectedDate (directive h) /\
   mode (directive h2) = (if truthy v then v else mode (directive h)) /\
   config (directive h2) = Some (config_for v) /\
   maxDate (directive h2) = maxDate (directive h) /\
   minDate (directive h2) = minDate (directive h) /\
   firstDayOfWeek (directive h2) = firstDayOfWeek (directive h) /\
   onDateChange (directive h2) = onDateChange (directive h) /\
   resets h2 = S (resets h) /\
   listeners h2 = listeners h ++ [SelectAndClose] /\
   closes h2 = closes h) /\
  (forall h0 : Host D,
     componentInstance (directive h0) = None -> popupOnOpen h0 = h0).
Proof.
  intros Hc. split; [exact Hc|]. split.
  - cbv zeta. unfold popupOnOpen.
    assert (componentInstance (directive (on_directive (set_mode v) h))
            = Some c) as -> by exact Hc.
    destruct h as [[sd md cf mx mn fd od ci] rs ls cl]. split.
    + eexists. split; [reflexivity|]. repeat split.
    + repeat split.
  - intros h0 H0. unfold popupOnOpen. rewrite H0. reflexivity.
Qed.

Lemma replicate_shift {A} (n : nat) (x : A) (l : list A) :
  replicate n x ++ x :: l = x :: replicate n x ++ l.
Proof.
  induction n as [|n IH]; [reflexivity|]. cbn. rewrite IH. reflexivity.
Qed.

Lemma notify_all (ls : list Listener) (d : D) : forall (h : Host D),
  closes (notify ls d h) = closes h + length ls /\
  onDateChange (directive (notify ls d h))
    = replicate (length ls) (Some d) ++ onDateChange (directive h) /\
  (0 < length ls -> selectedDate (directive (notify ls d h)) = Some d) /\
  (length ls = 0 -> notify ls d h = h) /\
  componentInstance (directive (notify ls d h))
    = componentInstance (directive h) /\
  listeners (notify ls d h) = listeners h /\
  resets (notify ls d h) = resets h.
Proof.
  induction ls as [|l ls IH]; intros h.
  - cbn. rewrite Nat.add_0_r. repeat split. lia.
  - cbn [notify length]. destruct l.
    destruct (IH (run_listener SelectAndClose d h))
      as (Hc & He & Hs & Hz & Hi & Hl & Hr).
    rewrite Hc, He, Hi, Hl, Hr. cbn. repeat split.
    + lia.
    + apply replicate_shift.
    + intros _. destruct ls as [|l ls]; [reflexivity|]. apply Hs. cbn. lia.
    + discriminate.
Qed.

Lemma popupOnOpen_iter (n : nat) : forall (h : Host D),
  is_Some (componentInstance (directive h)) ->
  is_Some (componentInstance (directive (Nat.iter n popupOnOpen h))) /\
  listeners (Nat.iter n popupOnOpen h)
    = listeners h ++ replicate n SelectAndClose /\
  resets (Nat.iter n popupOnOpen h) = resets h + n /\
  closes (Nat.iter n popupOnOpen h) = closes h /\
  onDateChange (directive (Nat.iter n popupOnOpen h))
    = onDateChange (directive h).
Proof.
  induction n as [|n IH]; intros h Hc.
  - cbn. rewrite app_nil_r, Nat.add_0_r. auto.
  - change (Nat.iter (S n) popupOnOpen h)
      with (popupOnOpen (Nat.iter n popupOnOpen h)).
    destruct (IH h Hc) as ([c Hi] & Hl & Hr & Hk & He).
    remember (Nat.iter n popupOnOpen h) as v eqn:Hv. clear Hv.
    assert (popupOnOpen v =
              {| directive := with_picker (pushed (directive v)) (directive v);
                 resets := S (resets v);
                 listeners := listeners v ++ [SelectAndClose];
                 closes := closes v |}) as ->
      by (unfold popupOnOpen; rewrite Hi; reflexivity).
    cbn. rewrite Hl, Hr, Hk, He. repeat split; eauto; try lia.
    rewrite <- app_assoc. f_equal. symmetry.
    apply (replicate_cons_app n SelectAndClose).
Qed.

(** Property X13. Every [popupOnOpen] on a live picker instance adds a
    subscriber to its [onDateChange] and none is ever removed: after [n]
    calls, one date chosen in the picker is stored and notified once per
    subscriber, and [close()] is called as many times; the picker
    instance itself is not written to. *)
Theorem subscribers_accumulate (n : nat) (d : D) (h : Host D) :
  is_Some (componentInstance (directive h)) ->
  let h1 := Nat.iter n popupOnOpen h in
  let k := length (listeners h) + n in
  listeners h1 = listeners h ++ replicate n SelectAndClose /\
  closes (dateChosen d h1) = closes h + k /\
  onDateChange (directive (dateChosen d h1))
    = replicate k (Some d) ++ onDateChange (directive h) /\
  (0 < k -> selectedDate (directive (dateChosen d h1)) = Some d) /\
  componentInstance (directive (dateChosen d h1))
    = componentInstance (directive h1).
Proof.
  intros Hc h1 k.
  destruct (popupOnOpen_iter n h Hc) as (_ & Hl & _ & Hk & He).
  fold h1 in Hl, Hk, He. split; [exact Hl|].
  unfold dateChosen.
  destruct (notify_all (listeners h1) d h1) as (Nc & Ne & Ns & _ & Ni & _).
  assert (length (listeners h1) = k) as Hlen.
  { rewrite Hl, length_app, length_replicate. reflexivity. }
  rewrite Hlen in Nc, Ne, Ns. rewrite Nc, Ne, Hk, He.
  split; [reflexivity|]. split; [reflexivity|]. split; [exact Ns | exact Ni].
Qed.

End DatepickerHost.

(** *** The further properties on concrete directives *)

Lemma mode_and_config_disagree_witness :
  mode (set_mode VUndefined (set_mode Time showing)) = Time /\
  config (set_mode VUndefined (set_mode Time showing)) = Some DateConfig /\
  config_for Time = TimeConfig.
Proof.
  assert (config_for Time = TimeConfig) as Ht by (vm_compute; reflexivity).
  destruct (mode_and_config_disagree Time VUndefined showing)
    as (_ & Hm & Hc & _).
  - vm_compute. reflexivity.
  - vm_compute. reflexivity.
  - vm_compute. reflexivity.
  - rewrite Ht. discriminate.
  - split; [exact Hm|]. split; [exact Hc | exact Ht].
Defined.

Lemma popupOnOpen_synchronises_witness :
  componentInstance (directive bounded) = Some blank_picker /\
  componentInstance (directive (on_directive (set_mode Time) bounded))
    = Some blank_picker /\
  exists c2,
    componentInstance
      (directive (popupOnOpen (on_directive (set_mode Time) bounded)))
      = Some c2 /\
    SuiDatepicker.config c2 = Some (config_for Time) /\
    SuiDatepicker.selectedDate c2 = selectedDate (directive bounded) /\
    SuiDatepicker.maxDate c2 = maxDate (directive bounded) /\
    SuiDatepicker.minDate c2 = minDate (directive bounded) /\
    SuiDatepicker.firstDayOfWeek c2 = firstDayOfWeek (directive bounded).
Proof.
  assert (componentInstance (directive bounded) = Some blank_picker) as Hc
    by (vm_compute; reflexivity).
  destruct (popupOnOpen_synchronises Time bounded blank_picker Hc)
    as (Hs & Hp & _).
  split; [exact Hc|]. split; [exact Hs|]. exact (proj1 Hp).
Defined.

Lemma subscribers_accumulate_witness :
  is_Some (componentInstance (directive shown)) /\
  closes (dateChosen 9%Z (Nat.iter 3 popupOnOpen shown)) = closes shown + (length (listeners shown) + 3) /\
  onDateChange (directive (dateChosen 9%Z (Nat.iter 3 popupOnOpen shown)))
    = replicate (length (listeners shown) + 3) (Some 9%Z)
        ++ onDateChange (directive shown).
Proof.
  assert (is_Some (componentInstance (directive shown))) as Hc
    by (exists blank_picker; vm_compute; reflexivity).
  destruct (subscribers_accumulate 3 9%Z shown Hc) as (_ & Hk & He & _).
  split; [exact Hc|]. split; [exact Hk | exact He].
Defined.

End DatepickerTheory.
